(** * gcb2gh: the step aggregation and the commit-status synthesis of main.go

    A shallow embedding of the parts of [main.go] that keep the per-step
    state ([run]), normalise Docker events ([dockerUpdates], [atoi]),
    synthesise the GitHub commit status ([gcb2gh], [fmtDuration]) and map
    errors to process exit codes ([exitCode], [exit]).

    Conventions.
    - Go's [int] and [int64] are modelled as [Z]; the one subtraction of the
      source that may leave the 64-bit range is wrapped with [wrap64].
    - A Go [string] is a sequence of bytes: [string] of the Standard Library
      ([Ascii.ascii] is one byte), and [len] is [String.length].
    - [map[int]gcbStep] is a [gmap Z gcbStep.t]; reading an absent key gives
      the zero value, which is what [!!!] does with the [Inhabited] instance
      below. *)

From Stdlib Require Import ZArith String Ascii List Lia Bool.
From Stdlib Require Import DecimalString DecimalPos.
From stdpp Require Import base tactics option list gmap strings sorting.

Local Open Scope string_scope.
Local Open Scope Z_scope.

(** ** Data model (main.go, lines 463-536) *)

(** [type gcbStatus int] with its [iota] constants. *)
Inductive gcbStatus : Set :=
| gcbStatusUndef
| gcbStatusError
| gcbStatusCancelled
| gcbStatusRunning
| gcbStatusDone.

#[global] Instance gcbStatus_eq_dec : EqDecision gcbStatus.
Proof. solve_decision. Defined.

(** The integer behind each constant: the order used by [sort.Slice]. *)
Definition statusInt (s : gcbStatus) : Z :=
  match s with
  | gcbStatusUndef => 0
  | gcbStatusError => 1
  | gcbStatusCancelled => 2
  | gcbStatusRunning => 3
  | gcbStatusDone => 4
  end.

(** [func (s gcbStatus) String() string] *)
Definition statusString (s : gcbStatus) : string :=
  match s with
  | gcbStatusUndef => "Unknown"
  | gcbStatusError => "Error"
  | gcbStatusCancelled => "Cancelled"
  | gcbStatusRunning => "Running"
  | gcbStatusDone => "Done"
  end.

Module gcbStep.
Record t : Set := mk {
  status : gcbStatus;
  num : Z;
  id : string;
  exit : Z;
  startNano : Z;
  endNano : Z
}.

(** The zero value of the struct: what a read of an absent map key and a
    receive on a closed channel give. *)
Definition zero : t := mk gcbStatusUndef 0 EmptyString 0 0 0.

Definition setStatus (v : gcbStatus) (s : t) : t :=
  mk v (num s) (id s) (exit s) (startNano s) (endNano s).
Definition setStartNano (v : Z) (s : t) : t :=
  mk (status s) (num s) (id s) (exit s) v (endNano s).
Definition setEndNano (v : Z) (s : t) : t :=
  mk (status s) (num s) (id s) (exit s) (startNano s) v.
End gcbStep.

#[global] Instance gcbStep_inhabited : Inhabited gcbStep.t :=
  populate gcbStep.zero.

#[global] Instance gcbStep_eq_dec : EqDecision gcbStep.t.
Proof. solve_decision. Defined.

(** ** The aggregation state machine: the [case s := <-gcbUpdates] arm of
    [run] (main.go, lines 102-142) *)

(** Lines 126-133: the body of the [range] loop, for the entry [n ↦ step],
    writing into the map [acc] that is being built. *)
Definition cancelIfRunning (endN : Z) (n : Z) (step : gcbStep.t)
    (acc : gmap Z gcbStep.t) : gmap Z gcbStep.t :=
  if decide (gcbStep.status step = gcbStatusRunning)
  then <[n := gcbStep.setEndNano endN
               (gcbStep.setStatus gcbStatusCancelled step)]> acc
  else acc.

(** Lines 126-133: [for n, step := range steps { ... steps[n] = step }].
    The loop only overwrites the entry it is visiting, so every entry is
    read with its value from before the loop. *)
Definition cascade (endN : Z) (steps : gmap Z gcbStep.t) : gmap Z gcbStep.t :=
  map_fold (cancelIfRunning endN) steps steps.

(** What the arm does with the value it received. *)
Inductive recvOutcome : Type :=
| NoMoreUpdates
    (* line 103: the zero value of a closed channel; [gcbUpdates = nil]
       and [break] towards the GitHub update *)
| Suppressed
    (* line 108: the step is already cancelled; [continue] *)
| Stored (steps' : gmap Z gcbStep.t) (cascaded : bool)
    (* lines 114-142: the step is stored, the cascade ran or not, the
       timer is reset and the loop continues *).

(** Lines 115-117. *)
Definition mergeStart (steps : gmap Z gcbStep.t) (s : gcbStep.t) : gcbStep.t :=
  if decide (gcbStep.startNano s = 0)
  then gcbStep.setStartNano (gcbStep.startNano (steps !!! gcbStep.num s)) s
  else s.

Definition recvStep (steps : gmap Z gcbStep.t) (s : gcbStep.t) : recvOutcome :=
  if decide (gcbStep.status s = gcbStatusUndef) then NoMoreUpdates
  else if decide (gcbStep.status (steps !!! gcbStep.num s) = gcbStatusCancelled)
  then Suppressed
  else
    let s1 := mergeStart steps s in
    let steps1 := <[gcbStep.num s1 := s1]> steps in
    if decide (gcbStep.status s1 = gcbStatusError)
    then Stored (cascade (gcbStep.endNano s1) steps1) true
    else Stored steps1 false.

(** The step map after the arm. *)
Definition apply (steps : gmap Z gcbStep.t) (s : gcbStep.t) : gmap Z gcbStep.t :=
  match recvStep steps s with
  | NoMoreUpdates | Suppressed => steps
  | Stored steps' _ => steps'
  end.

(** Whether the cancellation loop of lines 126-133 was entered. *)
Definition cascadeRan (steps : gmap Z gcbStep.t) (s : gcbStep.t) : bool :=
  match recvStep steps s with
  | Stored _ c => c
  | _ => false
  end.

(** Whether the received value is applied: it gets past the guards of
    lines 103 and 108 and is stored at line 118. *)
Definition applied (steps : gmap Z gcbStep.t) (s : gcbStep.t) : bool :=
  match recvStep steps s with
  | Stored _ _ => true
  | _ => false
  end.


(** ** The status synthesiser [gcb2gh] (main.go, lines 304-391) *)

(** The comparison handed to [sort.Slice] (lines 310-323), on the two
    elements it compares. *)
Definition less (a b : gcbStep.t) : bool :=
  if negb (bool_decide (gcbStep.status a = gcbStep.status b))
  then statusInt (gcbStep.status a) <? statusInt (gcbStep.status b)
  else if negb (gcbStep.endNano a =? gcbStep.endNano b)
  then gcbStep.endNano a >=? gcbStep.endNano b
  else if negb (gcbStep.startNano a =? gcbStep.startNano b)
  then gcbStep.startNano a >=? gcbStep.startNano b
  else gcbStep.num a <? gcbStep.num b.

(** [sort.Slice] is modelled by insertion of each element into the sorted
    rest (the library sorts short slices by insertion, longer ones by
    pattern-defeating quicksort). For the maps [run] builds the sorted
    slice is unique, so the choice of algorithm does not matter. *)
Fixpoint insertStep (x : gcbStep.t) (l : list gcbStep.t) : list gcbStep.t :=
  match l with
  | [] => [x]
  | y :: l' => if less x y then x :: y :: l' else y :: insertStep x l'
  end.

Definition sortSlice (l : list gcbStep.t) : list gcbStep.t :=
  foldr insertStep [] l.

(** Lines 306-309: the values of the map, in the order the [range] loop
    happens to produce them. *)
Definition stepValues (steps : gmap Z gcbStep.t) : list gcbStep.t :=
  (map_to_list steps).*2.

(** Lines 306-323: the sorted slice [st]. *)
Definition sortedSteps (steps : gmap Z gcbStep.t) : list gcbStep.t :=
  sortSlice (stepValues steps).

(** [int64] wrap-around of the two's complement subtraction. *)
Definition wrap64 (z : Z) : Z := (z + 2^63) mod 2^64 - 2^63.

(** The [%d] verb of [fmt.Sprintf], and [strconv.Itoa]. *)
Definition Itoa (z : Z) : string := NilZero.string_of_int (Z.to_int z).

(** [time.Duration] constants, in nanoseconds. *)
Definition Second : Z := 1000000000.
Definition Minute : Z := 60 * Second.
Definition Hour : Z := 60 * Minute.
Definition Day : Z := 24 * Hour.
Definition Year : Z := 365 * Day.

(** [fmtDuration] (lines 571-591); Go's [/] and [%] truncate towards zero. *)
Definition fmtDuration (d : Z) : string :=
  if Year <? d
  then Itoa (d ÷ Year) +:+ "y" +:+ Itoa (Z.rem d Year ÷ Day) +:+ "d"
  else if Day <? d
  then Itoa (d ÷ Day) +:+ "d" +:+ Itoa (Z.rem d Day ÷ Hour) +:+ "h"
  else if Hour <? d
  then Itoa (d ÷ Hour) +:+ "h" +:+ Itoa (Z.rem d Hour ÷ Minute) +:+ "m"
  else if Minute <? d
  then Itoa (d ÷ Minute) +:+ "m" +:+ Itoa (Z.rem d Minute ÷ Second) +:+ "s"
  else Itoa (Z.rem d Minute ÷ Second) +:+ "s".

(** Lines 328-336: what is written before the step's id. *)
Definition groupPrefix (stPrev cur : gcbStatus) : string :=
  if decide (cur ≠ stPrev)
  then (if decide (stPrev ≠ gcbStatusUndef) then "; " else EmptyString)
       +:+ statusString cur +:+ ": "
  else ", ".

(** Lines 338-346: the elapsed time, when it is more than ten seconds. *)
Definition durationSuffix (nowNano : Z) (s : gcbStep.t) : string :=
  let e := if decide (gcbStep.endNano s = 0) then nowNano
           else gcbStep.endNano s in
  let d := wrap64 (e - gcbStep.startNano s) in
  if 10 * Second <? d then " " +:+ fmtDuration d else EmptyString.

(** Lines 324-348: the loop over [st], with [stPrev] as its state; the
    result is what the [strings.Builder] holds in the end. *)
Fixpoint describe (nowNano : Z) (stPrev : gcbStatus) (st : list gcbStep.t)
    : string :=
  match st with
  | [] => EmptyString
  | s :: rest =>
      groupPrefix stPrev (gcbStep.status s) +:+ gcbStep.id s
      +:+ durationSuffix nowNano s
      +:+ describe nowNano (gcbStep.status s) rest
  end.

(** Lines 350-354. *)
Definition trim (status : string) : string :=
  if 140 <=? Z.of_nat (String.length status)
  then substring 0 140 status
  else status.

(** [type ghCommitState string] and its three constants. *)
Definition ghCommitState : Set := string.
Definition ghCommitStateError : ghCommitState := "error".
Definition ghCommitStateSuccess : ghCommitState := "success".
Definition ghCommitStatePending : ghCommitState := "pending".

(** Lines 358-376: the [switch] on the status of the first sorted step.
    [commitState] is declared without a value, so it holds the empty
    string when no case assigns it. *)
Definition commitStateOf (s0 : gcbStatus) (numSteps : Z) (lenSt : Z)
    : ghCommitState :=
  match s0 with
  | gcbStatusError => ghCommitStateError
  | gcbStatusDone =>
      if (numSteps =? 0) || (lenSt =? numSteps)
      then ghCommitStateSuccess
      else ghCommitStatePending
  | gcbStatusRunning => ghCommitStatePending
  | gcbStatusUndef | gcbStatusCancelled => EmptyString
  end.

Module buildContext.
Record t : Set := mk {
  Docker : string;
  Project : string;
  ID : string;
  Manifest : string;
  GitHub : string;
  Token : string;
  User : string;
  Repo : string;
  SHA : string;
  Context : string
}.
End buildContext.

Module ghStatusUpdate.
Record t : Set := mk {
  State : ghCommitState;
  TargetURL : string;
  Description : string;
  Context : string
}.
End ghStatusUpdate.

(** The two functions of package [net/url] that [gcb2gh] calls; their
    code is not part of the repository, so they are taken as given. *)
Record urlPackage : Type := {
  PathEscape : string → string;
  QueryEscape : string → string
}.

(** Lines 378-382. *)
Definition targetURL (url : urlPackage) (build : buildContext.t) (n : Z)
    : string :=
  "https://console.cloud.google.com/cloud-build/builds/"
  +:+ PathEscape url (buildContext.ID build)
  +:+ ";step=" +:+ Itoa n
  +:+ "?project=" +:+ QueryEscape url (buildContext.Project build).

(** [gcb2gh]; [nowNano] is the reading of [time.Now().UnixNano()].
    [None] is the run-time panic of [st[0]] (line 357) on an empty slice:
    index out of range. *)
Definition gcb2gh (url : urlPackage) (build : buildContext.t)
    (steps : gmap Z gcbStep.t) (numSteps : Z) (nowNano : Z)
    : option ghStatusUpdate.t :=
  let st := sortedSteps steps in
  let status := trim (describe nowNano gcbStatusUndef st) in
  match st with
  | [] => None
  | s0 :: _ =>
      Some (ghStatusUpdate.mk
              (commitStateOf (gcbStep.status s0) numSteps
                 (Z.of_nat (length st)))
              (targetURL url build (gcbStep.num s0))
              status
              (buildContext.Context build))
  end.

(** ** Errors and exit codes (main.go, lines 431-461) *)

(** The error values the program builds: [errors.New] and [fmt.Errorf]
    without [%w] give an [errorString], [fmt.Errorf] with [%w] wraps an
    error, and [exitError] is the struct of line 450. *)
Inductive error : Set :=
| errorString (msg : string)
| wrapError (msg : string) (err : error)
| exitError (code : Z) (err : error).

(** [exit] (lines 445-448). *)
Definition exit (code : Z) (err : error) : error := exitError code err.

(** [errors.As(err, &x)] for [x interface{ Code() int }]: the first error
    of the [Unwrap] chain that has a [Code] method, here an [exitError]. *)
Fixpoint asCode (err : error) : option Z :=
  match err with
  | errorString _ => None
  | wrapError _ inner => asCode inner
  | exitError code _ => Some code
  end.

(** [exitCode] (lines 431-443); [None] is the [nil] error. *)
Definition exitCode (err : option error) : Z :=
  match err with
  | None => 0
  | Some e => match asCode e with Some code => code | None => 1 end
  end.

(** [main] (lines 38-42): the exit status of the process when [run]
    returns [err]; a [main] that returns ends the process with status 0. *)
Definition mainExit (err : option error) : Z :=
  match err with
  | None => 0
  | Some e => exitCode (Some e)
  end.



(** ** [strconv.Atoi] and [atoi] (main.go, lines 426-429)

    [strconv.Atoi] belongs to Go's library; it is transcribed here for a
    64-bit [int], because [atoi] returns its first result also when the
    second one is an error. *)

Inductive numError : Set := ErrSyntax | ErrRange.

Definition intSize : Z := 64.
Definition maxUint64 : Z := 2^64 - 1.

Definition byteOf (c : ascii) : Z := Z.of_N (N_of_ascii c).

Definition isDigit (c : ascii) : bool := (48 <=? byteOf c) && (byteOf c <=? 57).

(** The fast path of [Atoi], after the sign: every byte must be a digit. *)
Fixpoint atoiDigits (s : string) (n : Z) : Z * option numError :=
  match s with
  | EmptyString => (n, None)
  | String ch rest =>
      if isDigit ch then atoiDigits rest (n * 10 + (byteOf ch - 48))
      else (0, Some ErrSyntax)
  end.

(** The loop of [ParseUint] in base 10 with [bitSize] 64: a byte that is
    not a digit is a syntax error; an overflow returns the largest value
    at once, without looking at the remaining bytes. *)
Fixpoint parseUintLoop (s : string) (n : Z) : Z * option numError :=
  match s with
  | EmptyString => (n, None)
  | String c rest =>
      if isDigit c then
        if maxUint64 ÷ 10 + 1 <=? n then (maxUint64, Some ErrRange)
        else
          let n1 := n * 10 + (byteOf c - 48) in
          if maxUint64 <? n1 then (maxUint64, Some ErrRange)
          else parseUintLoop rest n1
      else (0, Some ErrSyntax)
  end.

Definition ParseUint (s : string) : Z * option numError :=
  match s with
  | EmptyString => (0, Some ErrSyntax)
  | _ => parseUintLoop s 0
  end.

(** [ParseInt(s, 10, 0)]. *)
Definition ParseInt (s : string) : Z * option numError :=
  match s with
  | EmptyString => (0, Some ErrSyntax)
  | String c0 rest =>
      let neg := bool_decide (c0 = "-"%char) in
      let digits := if bool_decide (c0 = "+"%char) || neg then rest else s in
      let '(un, err) := ParseUint digits in
      match err with
      | Some ErrSyntax => (0, Some ErrSyntax)
      | _ =>
          let cutoff := 2 ^ (intSize - 1) in
          if negb neg && (cutoff <=? un) then (cutoff - 1, Some ErrRange)
          else if neg && (cutoff <? un) then (- cutoff, Some ErrRange)
          else (if neg then - un else un, None)
      end
  end.

(** [strconv.Atoi]: texts of 1 to 18 bytes take the fast path. *)
Definition Atoi (s : string) : Z * option numError :=
  let sLen := Z.of_nat (String.length s) in
  if (0 <? sLen) && (sLen <? 19) then
    match s with
    | EmptyString => (0, Some ErrSyntax)
    | String c0 rest =>
        let signed := bool_decide (c0 = "-"%char) || bool_decide (c0 = "+"%char) in
        let digits := if signed then rest else s in
        if signed && (Z.of_nat (String.length digits) <? 1)
        then (0, Some ErrSyntax)
        else
          match atoiDigits digits 0 with
          | (n, None) => (if bool_decide (c0 = "-"%char) then - n else n, None)
          | (_, Some e) => (0, Some e)
          end
    end
  else ParseInt s.

(** [atoi]: the error of [strconv.Atoi] is dropped. *)
Definition atoi (s : string) : Z := fst (Atoi s).

(** ** The event normaliser: the loop body of [dockerUpdates]
    (main.go, lines 263-295) *)

(** [strings.HasPrefix] and [strings.TrimPrefix]. *)
Fixpoint cutPrefix (s pre : string) : option string :=
  match pre, s with
  | EmptyString, _ => Some s
  | String a pre', String b s' =>
      if bool_decide (a = b) then cutPrefix s' pre' else None
  | String _ _, EmptyString => None
  end.

Definition HasPrefix (s pre : string) : bool :=
  match cutPrefix s pre with Some _ => true | None => false end.

Definition TrimPrefix (s pre : string) : string :=
  match cutPrefix s pre with Some rest => rest | None => s end.

(** The fields of [dockerEvent] that the program reads. *)
Module dockerAttr.
Record t : Set := mk {
  Name : string;
  ExitCode : string;
  Signal : string
}.
End dockerAttr.

Module dockerActor.
Record t : Set := mk {
  Attributes : dockerAttr.t
}.
End dockerActor.

Module dockerEvent.
Record t : Set := mk {
  Type_ : string;
  Action : string;
  Actor : dockerActor.t;
  TimeNano : Z
}.
End dockerEvent.

(** [e.Actor.Attributes.Name] and [e.Actor.Attributes.ExitCode]. *)
Definition eventName (e : dockerEvent.t) : string :=
  dockerAttr.Name (dockerActor.Attributes (dockerEvent.Actor e)).

Definition eventExitCode (e : dockerEvent.t) : string :=
  dockerAttr.ExitCode (dockerActor.Attributes (dockerEvent.Actor e)).

(** Lines 291-294: the id of the manifest, or the container name. *)
Definition stepId (ids : gmap Z string) (n : Z) (name : string) : string :=
  let id := default EmptyString (ids !! n) in
  if decide (id = EmptyString) then name else id.

(** Lines 263-295: the step sent on the channel for one decoded event,
    [None] when the event is skipped ([continue]). *)
Definition stepOfEvent (ids : gmap Z string) (e : dockerEvent.t)
    : option gcbStep.t :=
  let name := eventName e in
  if negb (HasPrefix name "step_") then None
  else
    let n := atoi (TrimPrefix name "step_") in
    let action := dockerEvent.Action e in
    if decide (action = "start") then
      Some (gcbStep.mk gcbStatusRunning n (stepId ids n name) 0
              (dockerEvent.TimeNano e) 0)
    else if decide (action = "kill") then
      Some (gcbStep.mk gcbStatusCancelled n (stepId ids n name) 0
              0 (dockerEvent.TimeNano e))
    else if decide (action = "die") then
      let code := atoi (eventExitCode e) in
      Some (gcbStep.mk
              (if decide (code = 0) then gcbStatusDone else gcbStatusError)
              n (stepId ids n name) code 0 (dockerEvent.TimeNano e))
    else None.

(** ** [dockerUpdates] (main.go, lines 221-302) *)

(** What [docker.Get] gives: an error, or a response with its status and
    the events of its body, which ends with [io.EOF] ([None]) or with a
    decoding error. *)
Inductive getResult : Type :=
| GetError (err : error)
| GetResponse (statusCode : Z) (status dump : string)
    (body : list dockerEvent.t) (ending : option error).

Inductive updatesOutcome : Type :=
| LogFatal
    (* line 240: [log.Fatalf], the process ends here *)
| Finished (sent : list gcbStep.t) (err : option error)
    (* the steps sent on [updates], then the returned error *).

Definition StatusOK : Z := 200.

Definition newline : string := String (ascii_of_nat 10) EmptyString.

(** The context is not cancelled while [run] is in its loop, so line 298
    never returns. *)
Definition dockerUpdates (ids : gmap Z string) (get : getResult)
    : updatesOutcome :=
  match get with
  | GetError _ => LogFatal
  | GetResponse statusCode status dump body ending =>
      if negb (statusCode =? StatusOK)
      then Finished []
             (Some (exit 3 (errorString
                (status +:+ " fetching docker events:" +:+ newline +:+ dump))))
      else Finished (omap (stepOfEvent ids) body)
             (match ending with
              | None => None
              | Some err => Some (wrapError "decoding event: " err)
              end)
  end.

(** ** The coordination loop of [run] (main.go, lines 96-178)

    One iteration of the [for] loop is one wake-up of the [select]. The
    timer arithmetic ([kick.Stop], [kick.Reset]) decides when the timer
    case fires; it is not modelled, the wake-ups are an input. *)

Inductive wakeup : Type :=
| RecvUpdate (s : gcbStep.t)
    (* [case s := <-gcbUpdates]; a closed channel gives [gcbStep.zero] *)
| RecvDockerErr (err : option error)
    (* [case err = <-dockerErrs] *)
| KickFired
    (* [case <-kick.C] *).

Module loopState.
Record t : Type := mk {
  steps : gmap Z gcbStep.t;
  updatesNil : bool;      (* [gcbUpdates == nil] *)
  dockerErrsNil : bool    (* [dockerErrs == nil] *)
}.
End loopState.

(** What the iteration reads from outside: the clock of [gcb2gh] and the
    result of [updateGitHub]. *)
Module world.
Record t : Type := mk {
  nowNano : Z;
  updateErr : option error
}.
End world.

Inductive loopOutcome : Type :=
| Continue (st : loopState.t)
| Return (err : option error)
| Panic
    (* run-time panic: index out of range *)
| NotReady
    (* the wake-up is a receive on a nil channel, which never happens *).

(** Lines 156-177: the update of GitHub and the three ways out. The
    context of [run] is only cancelled by the deferred [cancel], so
    [ctx.Err()] is [nil] at line 171. *)
Definition updateAndDecide (url : urlPackage) (build : buildContext.t)
    (numSteps : Z) (st : loopState.t) (w : world.t) : loopOutcome :=
  match gcb2gh url build (loopState.steps st) numSteps (world.nowNano w) with
  | None => Panic
  | Some gh =>
      if decide (ghStatusUpdate.State gh = ghCommitStateError)
      then Return (world.updateErr w)
      else if loopState.updatesNil st then Return (world.updateErr w)
      else Continue st
  end.

(** Lines 100-178: one iteration. *)
Definition iteration (url : urlPackage) (build : buildContext.t)
    (numSteps : Z) (st : loopState.t) (wk : wakeup) (w : world.t)
    : loopOutcome :=
  match wk with
  | RecvUpdate s =>
      if loopState.updatesNil st then NotReady
      else
        match recvStep (loopState.steps st) s with
        | NoMoreUpdates =>
            updateAndDecide url build numSteps
              (loopState.mk (loopState.steps st) true
                 (loopState.dockerErrsNil st)) w
        | Suppressed => Continue st
        | Stored steps' _ =>
            Continue (loopState.mk steps' (loopState.updatesNil st)
                        (loopState.dockerErrsNil st))
        end
  | RecvDockerErr err =>
      if loopState.dockerErrsNil st then NotReady
      else
        match err with
        | Some e => Return (Some e)
        | None =>
            (* [dockerErrs = nil; close(gcbUpdates); continue] *)
            Continue (loopState.mk (loopState.steps st)
                        (loopState.updatesNil st) true)
        end
  | KickFired => updateAndDecide url build numSteps st w
  end.

(** The loop over a sequence of wake-ups; when the sequence ends the loop
    is left waiting in its [select]. *)
Fixpoint runLoop (url : urlPackage) (build : buildContext.t) (numSteps : Z)
    (st : loopState.t) (trace : list (wakeup * world.t)) : loopOutcome :=
  match trace with
  | [] => Continue st
  | (wk, w) :: rest =>
      match iteration url build numSteps st wk w with
      | Continue st' => runLoop url build numSteps st' rest
      | out => out
      end
  end.

(** Lines 97-99: the state before the first iteration. *)
Definition initialState : loopState.t := loopState.mk ∅ false false.

(** The wake-ups of [run] when no step was ever sent: the [nil] of
    [dockerErrs] at the end of the stream, then the zero value of the
    closed [gcbUpdates]. *)
Definition endOfStreamTrace (w : world.t) : list (wakeup * world.t) :=
  [(RecvDockerErr None, w); (RecvUpdate gcbStep.zero, w)].



(** [less] as a lexicographic comparison of four integers. *)
Definition lexBefore (a b : gcbStep.t) : Prop :=
  let sa := statusInt (gcbStep.status a) in
  let sb := statusInt (gcbStep.status b) in
  sa < sb
  ∨ (sa = sb ∧ gcbStep.endNano a > gcbStep.endNano b)
  ∨ (sa = sb ∧ gcbStep.endNano a = gcbStep.endNano b
     ∧ gcbStep.startNano a > gcbStep.startNano b)
  ∨ (sa = sb ∧ gcbStep.endNano a = gcbStep.endNano b
     ∧ gcbStep.startNano a = gcbStep.startNano b
     ∧ gcbStep.num a < gcbStep.num b).

(** ** The claim on the sort order, in the words of the specification *)

(** The precedence of the specification: Error, Cancelled, Running, Done. *)
Definition specPrecedence : list gcbStatus :=
  [gcbStatusError; gcbStatusCancelled; gcbStatusRunning; gcbStatusDone].

(** The position of a status in a precedence list. *)
Fixpoint specRank (order : list gcbStatus) (s : gcbStatus) : nat :=
  match order with
  | [] => 0
  | x :: rest => if decide (x = s) then 0 else S (specRank rest s)
  end.

(** "Sort by status in the fixed precedence, then by end time descending,
    then by start time descending, then by step number ascending." *)
Definition specBefore (a b : gcbStep.t) : Prop :=
  let ra := specRank specPrecedence (gcbStep.status a) in
  let rb := specRank specPrecedence (gcbStep.status b) in
  (ra < rb)%nat
  ∨ (ra = rb ∧ gcbStep.endNano a > gcbStep.endNano b)
  ∨ (ra = rb ∧ gcbStep.endNano a = gcbStep.endNano b
     ∧ gcbStep.startNano a > gcbStep.startNano b)
  ∨ (ra = rb ∧ gcbStep.endNano a = gcbStep.endNano b
     ∧ gcbStep.startNano a = gcbStep.startNano b
     ∧ gcbStep.num a < gcbStep.num b).

(** The invariants of the maps that [run] builds: every entry is stored
    under its own step number (line 118 stores [s] at [s.num], line 132
    rewrites an entry in place), and no entry has the undefined status
    (line 103 filters it out). *)
Definition keyed (steps : gmap Z gcbStep.t) : Prop :=
  map_Forall (λ n s, gcbStep.num s = n) steps.

Definition defined (steps : gmap Z gcbStep.t) : Prop :=
  map_Forall (λ _ s, gcbStep.status s ≠ gcbStatusUndef) steps.

(** The maps [run] reaches from the empty map. *)
Definition applyAll (steps : gmap Z gcbStep.t) (updates : list gcbStep.t)
    : gmap Z gcbStep.t :=
  foldl apply steps updates.

(** ** Concrete inputs used by the examples below *)

(** Three steps: 1 and 3 are running, 2 has been cancelled. *)
Definition demoSteps : gmap Z gcbStep.t :=
  <[1 := gcbStep.mk gcbStatusRunning 1 "step_1" 0 50 0]>
  (<[2 := gcbStep.mk gcbStatusCancelled 2 "step_2" 0 55 10301]>
  (<[3 := gcbStep.mk gcbStatusRunning 3 "step_3" 0 80 0]> ∅)).

(** The "die" of step 2 with exit code 1 that follows its "kill". *)
Definition demoStaleDie : gcbStep.t :=
  gcbStep.mk gcbStatusError 2 "step_2" 1 0 10302.

(** The "die" of step 3 with exit code 1. *)
Definition demoFailure : gcbStep.t :=
  gcbStep.mk gcbStatusError 3 "step_3" 1 0 10300.

(** A container event at time [t]. *)
Definition demoEvent (t : Z) (action name code : string) : dockerEvent.t :=
  dockerEvent.mk "container" action
    (dockerActor.mk (dockerAttr.mk name code EmptyString)) t.

(** A "start" and a "kill" of step 0, and the map [run] has after them. *)
Definition demoKilled : list dockerEvent.t :=
  [ demoEvent 1000 "start" "step_0" EmptyString;
    demoEvent 5000 "kill" "step_0" EmptyString ].

Definition demoKilledSteps : gmap Z gcbStep.t :=
  applyAll ∅ (omap (stepOfEvent ∅) demoKilled).


(** Stand-ins for the functions of [net/url] and for the build. *)
Definition demoUrl : urlPackage :=
  {| PathEscape := λ s, s; QueryEscape := λ s, s |}.

Definition demoBuild : buildContext.t :=
  {| buildContext.Docker := EmptyString;
     buildContext.Project := "gcb-project";
     buildContext.ID := "build-123";
     buildContext.Manifest := EmptyString;
     buildContext.GitHub := EmptyString;
     buildContext.Token := EmptyString;
     buildContext.User := EmptyString;
     buildContext.Repo := EmptyString;
     buildContext.SHA := EmptyString;
     buildContext.Context := "gcb" |}.

(** The events of [TestOK] and [TestOKManifest] (main_test.go), with the
    clock of the fake daemon at 1000 s, and the ids of the manifest. *)
Definition demoTestEvents : list dockerEvent.t :=
  let at_ms (t : Z) := 1000000000000 + t * 1000000 in
  [ demoEvent (at_ms 1) "start" "step_0" EmptyString;
    demoEvent (at_ms 5) "die" "step_0" "0";
    demoEvent (at_ms 50) "start" "step_1" EmptyString;
    demoEvent (at_ms 55) "start" "step_2" EmptyString;
    demoEvent (at_ms 80) "start" "step_3" EmptyString;
    demoEvent (at_ms 10200) "die" "step_1" "0";
    demoEvent (at_ms 10300) "die" "step_3" "1";
    demoEvent (at_ms 10301) "kill" "step_2" EmptyString;
    demoEvent (at_ms 10302) "die" "step_2" "1" ].

Definition demoManifest : gmap Z string :=
  <[0 := "quick"]> (<[1 := "slow"]> (<[2 := "incomplete"]>
    (<[3 := "failure"]> ∅))).

(** The step map of [run] after the first [k] events of the test. *)
Definition demoTestSteps (ids : gmap Z string) (k : nat)
    : gmap Z gcbStep.t :=
  applyAll ∅ (omap (stepOfEvent ids) (take k demoTestEvents)).

(** An event of a container that is not a build step. *)
Definition demoOtherEvent : dockerEvent.t :=
  demoEvent 1000 "start" "gcb2gh" EmptyString.


Definition demoWorld : world.t := world.mk 20000 None.

(** A second "start" of step 1. *)
Definition demoRestart : gcbStep.t :=
  gcbStep.mk gcbStatusRunning 1 "step_1" 0 90 0.

(** ** The start of [run]: the environment (main.go, lines 46-81) *)

(** [os.Getenv]: the value of the variable, empty when it is not set. *)
Definition Getenv (env : gmap string string) (key : string) : string :=
  default EmptyString (env !! key).

(** A text between double quotes, for the messages below. *)
Definition quoted (s : string) : string :=
  String (ascii_of_nat 34) s +:+ String (ascii_of_nat 34) EmptyString.

(** Lines 47-60. *)
Definition readEnv (env : gmap string string) : buildContext.t :=
  {| buildContext.Docker := Getenv env "DOCKER_HOST";
     buildContext.Project := Getenv env "PROJECT_ID";
     buildContext.ID := Getenv env "BUILD_ID";
     buildContext.Manifest := Getenv env "BUILD_MANIFEST";
     buildContext.GitHub := Getenv env "GITHUB_API";
     buildContext.Token := Getenv env "GITHUB_TOKEN";
     buildContext.User := Getenv env "GITHUB_USER";
     buildContext.Repo := Getenv env "GITHUB_REPO";
     buildContext.SHA := Getenv env "COMMIT_SHA";
     buildContext.Context := Getenv env "STATUS_CONTEXT" |}.

(** Lines 73-81: [if v == "" { v = d }]. *)
Definition orDefault (v d : string) : string :=
  if decide (v = EmptyString) then d else v.

(** Lines 46-81: the build context, or the error [run] returns before it
    does anything else. *)
Definition runConfig (env : gmap string string) : error + buildContext.t :=
  let build := readEnv env in
  if decide (buildContext.Token build = EmptyString) then
    inl (errorString
      ("envvar GITHUB_TOKEN (" +:+ quoted "user:token" +:+ ", "
       +:+ quoted ":token" +:+ " or " +:+ quoted "token"
       +:+ ") is required"))
  else if decide (buildContext.User build = EmptyString) then
    inl (errorString
      ("envvar GITHUB_USER (the " +:+ quoted "user" +:+ " in "
       +:+ quoted "github.com/user/repo" +:+ ") is required"))
  else if decide (buildContext.Repo build = EmptyString) then
    inl (errorString
      ("envvar GITHUB_REPO (the " +:+ quoted "repo" +:+ " in "
       +:+ quoted "github.com/user/repo" +:+ ") is required"))
  else if decide (buildContext.SHA build = EmptyString) then
    inl (errorString "envvar COMMIT_SHA is required")
  else
    inr {| buildContext.Docker :=
             orDefault (buildContext.Docker build)
               "unix:///var/run/docker.sock";
           buildContext.Project := buildContext.Project build;
           buildContext.ID := buildContext.ID build;
           buildContext.Manifest := buildContext.Manifest build;
           buildContext.GitHub :=
             orDefault (buildContext.GitHub build) "https://api.github.com";
           buildContext.Token := buildContext.Token build;
           buildContext.User := buildContext.User build;
           buildContext.Repo := buildContext.Repo build;
           buildContext.SHA := buildContext.SHA build;
           buildContext.Context :=
             orDefault (buildContext.Context build) "gcb" |}.

(** ** [readManifestIDs] (main.go, lines 181-217) *)

(** [type step struct { ID, Name string }]. *)
Module manifestStep.
Record t : Set := mk {
  ID : string;
  Name : string
}.
End manifestStep.

(** What opening and decoding the manifest file gives. *)
Inductive manifestFile : Type :=
| OpenFails (err : error)
| DecodeFails (err : error)
| Decoded (steps : list manifestStep.t).

(** Lines 213-215: [for n, s := range c.Steps { ids[n] = s.ID }], from
    index [n] on. *)
Fixpoint manifestLoop (n : Z) (steps : list manifestStep.t)
    (ids : gmap Z string) : gmap Z string :=
  match steps with
  | [] => ids
  | s :: rest => manifestLoop (n + 1) rest (<[n := manifestStep.ID s]> ids)
  end.

(** [readManifestIDs]: the file is not touched when [mani] is empty. *)
Definition readManifestIDs (mani : string) (file : manifestFile)
    : gmap Z string :=
  if decide (mani = EmptyString) then ∅
  else
    match file with
    | OpenFails _ => ∅
    | DecodeFails _ => ∅
    | Decoded steps => manifestLoop 0 steps ∅
    end.

(** ** [splitUserPass] (main.go, lines 561-569) *)

(** [strings.Index]: the position of the first occurrence, or -1. *)
Definition Index (s substr : string) : Z :=
  match index 0 substr s with
  | Some n => Z.of_nat n
  | None => -1
  end.

Definition splitUserPass (userPass : string) : string * string :=
  let col := Index userPass ":" in
  if decide (col = -1) then (EmptyString, userPass)
  else
    (substring 0 (Z.to_nat col) userPass,
     substring (Z.to_nat (col + 1))
       (String.length userPass - Z.to_nat (col + 1)) userPass).

(** ** The client of [dockerUpdates] (main.go, lines 222-238) *)

(** The path of the unix socket that the client dials ([None] for the
    default client) and the URL of the request. *)
Definition dockerRequest (dockerHost : string) : option string * string :=
  if HasPrefix dockerHost "unix:///"
  then (Some (TrimPrefix dockerHost "unix://"),
        "http://docker" +:+ "/events?type=container&since=10")
  else (None, dockerHost +:+ "/events?type=container&since=10").

(** ** [run] as a whole (main.go, lines 45-179) *)

(** [run] on the environment, the manifest file and the wake-ups of its
    loop. *)
Definition run (url : urlPackage) (env : gmap string string)
    (file : manifestFile) (trace : list (wakeup * world.t)) : loopOutcome :=
  match runConfig env with
  | inl err => Return (Some err)
  | inr build =>
      let ids := readManifestIDs (buildContext.Manifest build) file in
      runLoop url build (Z.of_nat (size ids)) initialState trace
  end.

(** ** [updateGitHub] (main.go, lines 401-424) *)

(** What the calls of [updateGitHub] give: [newGHStatusUpdateReq] fails,
    [http.DefaultClient.Do] fails, or GitHub responds; [discard] is the
    result of [io.Copy(io.Discard, res.Body)]. *)
Inductive ghResult : Type :=
| RequestNotBuilt (err : error)
| RequestNotSent (err : error)
| Responded (statusCode : Z) (status dump : string) (discard : option error).

Definition StatusCreated : Z := 201.

Definition updateGitHub (res : ghResult) : option error :=
  match res with
  | RequestNotBuilt err =>
      Some (wrapError "building github status request: " err)
  | RequestNotSent err =>
      Some (wrapError "updating github status: " err)
  | Responded statusCode status dump discard =>
      if negb (statusCode =? StatusCreated)
      then Some (errorString
                   (status +:+ " response from github:" +:+ newline +:+ dump))
      else
        match discard with
        | Some err => Some (wrapError "discarding github response body: " err)
        | None => None
        end
  end.

(** ** Notions used to state further properties *)

(** The values received on [gcbUpdates] in a sequence of wake-ups. *)
Fixpoint receivedUpdates (trace : list (wakeup * world.t))
    : list gcbStep.t :=
  match trace with
  | [] => []
  | (RecvUpdate s, _) :: rest => s :: receivedUpdates rest
  | _ :: rest => receivedUpdates rest
  end.

(** An error wrapped by [fmt.Errorf] with [%w], once per message. *)
Definition wrapAll (msgs : list string) (err : error) : error :=
  foldr wrapError err msgs.

(** The number a decimal numeral stands for, after the digits read so far
    gave [acc]. *)
Fixpoint uintValue (d : Decimal.uint) (acc : Z) : Z :=
  match d with
  | Decimal.Nil => acc
  | Decimal.D0 d' => uintValue d' (acc * 10 + 0)
  | Decimal.D1 d' => uintValue d' (acc * 10 + 1)
  | Decimal.D2 d' => uintValue d' (acc * 10 + 2)
  | Decimal.D3 d' => uintValue d' (acc * 10 + 3)
  | Decimal.D4 d' => uintValue d' (acc * 10 + 4)
  | Decimal.D5 d' => uintValue d' (acc * 10 + 5)
  | Decimal.D6 d' => uintValue d' (acc * 10 + 6)
  | Decimal.D7 d' => uintValue d' (acc * 10 + 7)
  | Decimal.D8 d' => uintValue d' (acc * 10 + 8)
  | Decimal.D9 d' => uintValue d' (acc * 10 + 9)
  end.

(** The elapsed time that [gcb2gh] computes for a step (lines 338-342). *)
Definition elapsed (nowNano : Z) (s : gcbStep.t) : Z :=
  wrap64 ((if decide (gcbStep.endNano s = 0) then nowNano
           else gcbStep.endNano s) - gcbStep.startNano s).

(** The texts of a list joined with a separator. *)
Fixpoint joinWith (sep : string) (l : list string) : string :=
  match l with
  | [] => EmptyString
  | [x] => x
  | x :: rest => x +:+ sep +:+ joinWith sep rest
  end.

(** What the summary shows for one step: its id and, when it is shown,
    its elapsed time. *)
Definition stepText (nowNano : Z) (s : gcbStep.t) : string :=
  gcbStep.id s +:+ durationSuffix nowNano s.

(** What the summary shows for a group of steps with status [c]. *)
Definition groupText (nowNano : Z) (g : gcbStatus * list gcbStep.t)
    : string :=
  statusString (fst g) +:+ ": "
  +:+ joinWith ", " (stepText nowNano <$> snd g).

(** A slice cut into groups: each group is not empty, its steps have the
    status of the group, which is not the undefined one, and a group does
    not have the status [prev] of the group before it. *)
Fixpoint grouped (prev : gcbStatus)
    (groups : list (gcbStatus * list gcbStep.t)) : Prop :=
  match groups with
  | [] => True
  | (c, g) :: rest =>
      c ≠ gcbStatusUndef ∧ c ≠ prev ∧ g ≠ []
      ∧ Forall (λ s, gcbStep.status s = c) g
      ∧ grouped c rest
  end.

(** ** Concrete inputs for the further examples *)

(** The environment of [TestContextName], without the addresses of the
    fake servers. *)
Definition demoEnv : gmap string string :=
  <["PROJECT_ID" := "gcb-project"]>
  (<["BUILD_ID" := "build-123"]>
  (<["COMMIT_SHA" := "abc123"]>
  (<["GITHUB_TOKEN" := "user:token"]>
  (<["GITHUB_USER" := "unravelin"]>
  (<["GITHUB_REPO" := "gcb2gh-test"]>
  (<["STATUS_CONTEXT" := "gcb-test"]> ∅)))))).

(** A manifest with the four step ids that [TestOKManifest] expects. *)
Definition demoManifestSteps : list manifestStep.t :=
  [ manifestStep.mk "quick" EmptyString;
    manifestStep.mk "slow" EmptyString;
    manifestStep.mk "incomplete" EmptyString;
    manifestStep.mk "failure" EmptyString ].

(** The last slice of [TestOK], cut into its three groups. *)
Definition demoGroups : list (gcbStatus * list gcbStep.t) :=
  [ (gcbStatusError,
     [gcbStep.mk gcbStatusError 3 "step_3" 1 1000080000000 1010300000000]);
    (gcbStatusCancelled,
     [gcbStep.mk gcbStatusCancelled 2 "step_2" 0
        1000055000000 1010300000000]);
    (gcbStatusDone,
     [gcbStep.mk gcbStatusDone 1 "step_1" 0 1000050000000 1010200000000;
      gcbStep.mk gcbStatusDone 0 "step_0" 0 1000001000000 1000005000000]) ].

(** Wake-ups of the loop: a "start" of step 1, the timer, then the
    failure of step 3. *)
Definition demoTrace : list (wakeup * world.t) :=
  [ (RecvUpdate demoRestart, demoWorld);
    (KickFired, demoWorld);
    (RecvUpdate demoFailure, demoWorld) ].

(** The errors of Go's library in a result of the calls of
    [updateGitHub]; none of them has a [Code] method. *)
Definition libraryErrors (res : ghResult) : list error :=
  match res with
  | RequestNotBuilt err | RequestNotSent err => [err]
  | Responded _ _ _ discard => option_list discard
  end.

(** A world whose publish is [updateGitHub] on [res]. *)
Definition worldOf (nowNano : Z) (res : ghResult) : world.t :=
  world.mk nowNano (updateGitHub res).

Definition demoBadCredentials : ghResult :=
  Responded 401 "401 Unauthorized" "HTTP/1.1 401 Unauthorized" None.

Definition demoCreated : ghResult :=
  Responded 201 "201 Created" "HTTP/1.1 201 Created" None.

(** * Properties *)

(** A closed map is not empty: it has an entry at key [k]. *)
Ltac has_entry k :=
  let H := fresh in
  intros H; apply (f_equal (λ m : gmap Z gcbStep.t, m !! k)) in H;
  vm_compute in H; discriminate H.

(** ** Lemmas on the state machine *)

Lemma mergeStart_num steps s : gcbStep.num (mergeStart steps s) = gcbStep.num s.
Proof. unfold mergeStart. by case_decide. Qed.

Lemma mergeStart_status steps s :
  gcbStep.status (mergeStart steps s) = gcbStep.status s.
Proof. unfold mergeStart. by case_decide. Qed.

Lemma mergeStart_endNano steps s :
  gcbStep.endNano (mergeStart steps s) = gcbStep.endNano s.
Proof. unfold mergeStart. by case_decide. Qed.

(** The cancellation loop, entry by entry. *)
Lemma cascade_lookup (endN : Z) (steps : gmap Z gcbStep.t) (n : Z) :
  cascade endN steps !! n =
  (λ step, if decide (gcbStep.status step = gcbStatusRunning)
           then gcbStep.setEndNano endN
                  (gcbStep.setStatus gcbStatusCancelled step)
           else step) <$> steps !! n.
Proof.
  unfold cascade.
  set (upd := λ step : gcbStep.t,
         if decide (gcbStep.status step = gcbStatusRunning)
         then gcbStep.setEndNano endN (gcbStep.setStatus gcbStatusCancelled step)
         else step).
  assert (Hgen : ∀ base : gmap Z gcbStep.t,
    ∀ k, map_fold (cancelIfRunning endN) base steps !! k =
         match steps !! k with
         | Some step => if decide (gcbStep.status step = gcbStatusRunning)
                        then Some (upd step) else base !! k
         | None => base !! k
         end).
  { intros base.
    apply (map_fold_weak_ind
      (λ (r : gmap Z gcbStep.t) (m : gmap Z gcbStep.t),
         ∀ k, r !! k = match m !! k with
                       | Some step =>
                           if decide (gcbStep.status step = gcbStatusRunning)
                           then Some (upd step) else base !! k
                       | None => base !! k
                       end)).
    - intros k. by rewrite lookup_empty.
    - intros i x m r Hi IH k. unfold cancelIfRunning.
      destruct (decide (i = k)) as [->|Hne].
      + rewrite lookup_insert_eq. case_decide.
        * rewrite lookup_insert_eq. unfold upd. by rewrite decide_True.
        * rewrite IH, Hi. done.
      + rewrite lookup_insert_ne by done. case_decide.
        * rewrite lookup_insert_ne by done. apply IH.
        * apply IH. }
  rewrite Hgen. destruct (steps !! n) as [step|] eqn:E; simpl; [|done].
  unfold upd. case_decide; done.
Qed.

(** The three ways through the arm, by the guards of lines 103 and 108. *)
Lemma recvStep_undef steps s :
  gcbStep.status s = gcbStatusUndef → recvStep steps s = NoMoreUpdates.
Proof. intros H. unfold recvStep. by rewrite decide_True. Qed.

Lemma recvStep_cancelled steps s :
  gcbStep.status s ≠ gcbStatusUndef →
  gcbStep.status (steps !!! gcbStep.num s) = gcbStatusCancelled →
  recvStep steps s = Suppressed.
Proof.
  intros H1 H2. unfold recvStep.
  rewrite decide_False by done. by rewrite decide_True.
Qed.

Lemma recvStep_stored steps s :
  gcbStep.status s ≠ gcbStatusUndef →
  gcbStep.status (steps !!! gcbStep.num s) ≠ gcbStatusCancelled →
  recvStep steps s =
    if decide (gcbStep.status s = gcbStatusError)
    then Stored (cascade (gcbStep.endNano s)
                   (<[gcbStep.num s := mergeStart steps s]> steps)) true
    else Stored (<[gcbStep.num s := mergeStart steps s]> steps) false.
Proof.
  intros H1 H2. unfold recvStep.
  rewrite !decide_False by done.
  rewrite mergeStart_status, mergeStart_num, mergeStart_endNano. done.
Qed.

(** A received value is applied unless it is the zero value of the closed
    channel or its step is Cancelled. *)
Lemma applied_iff steps s :
  applied steps s = true ↔
  gcbStep.status s ≠ gcbStatusUndef
  ∧ gcbStep.status (steps !!! gcbStep.num s) ≠ gcbStatusCancelled.
Proof.
  unfold applied. split.
  - intros H. split; intros Hx.
    + by rewrite recvStep_undef in H.
    + destruct (decide (gcbStep.status s = gcbStatusUndef)).
      * by rewrite recvStep_undef in H.
      * by rewrite recvStep_cancelled in H.
  - intros [Hu Hc]. rewrite recvStep_stored by done. by case_decide.
Qed.

(** The entry of the step the transition is about, when it is stored. *)
Lemma apply_lookup_target steps s :
  gcbStep.status s ≠ gcbStatusUndef →
  gcbStep.status (steps !!! gcbStep.num s) ≠ gcbStatusCancelled →
  apply steps s !! gcbStep.num s = Some (mergeStart steps s).
Proof.
  intros H1 H2. unfold apply. rewrite recvStep_stored by done.
  case_decide as He.
  - rewrite cascade_lookup, lookup_insert_eq. simpl.
    rewrite decide_False; [done|].
    rewrite mergeStart_status, He. done.
  - by rewrite lookup_insert_eq.
Qed.

(** The entries of the other steps. *)
Lemma apply_lookup_other steps s n :
  gcbStep.status s ≠ gcbStatusUndef →
  gcbStep.status (steps !!! gcbStep.num s) ≠ gcbStatusCancelled →
  n ≠ gcbStep.num s →
  apply steps s !! n =
    if decide (gcbStep.status s = gcbStatusError)
    then (λ step, if decide (gcbStep.status step = gcbStatusRunning)
                  then gcbStep.setEndNano (gcbStep.endNano s)
                         (gcbStep.setStatus gcbStatusCancelled step)
                  else step) <$> steps !! n
    else steps !! n.
Proof.
  intros H1 H2 Hn. unfold apply. rewrite recvStep_stored by done.
  case_decide.
  - rewrite cascade_lookup, lookup_insert_ne by done. done.
  - by rewrite lookup_insert_ne.
Qed.

(** The arm either leaves the map as it is or stores the value. *)
Lemma apply_unfold steps s :
  apply steps s = steps
  ∨ (gcbStep.status s ≠ gcbStatusUndef
     ∧ gcbStep.status (steps !!! gcbStep.num s) ≠ gcbStatusCancelled).
Proof.
  destruct (decide (gcbStep.status s = gcbStatusUndef)) as [Hu|Hu].
  { left. unfold apply. by rewrite recvStep_undef. }
  destruct (decide (gcbStep.status (steps !!! gcbStep.num s)
                    = gcbStatusCancelled)) as [Hc|Hc].
  { left. unfold apply. by rewrite recvStep_cancelled. }
  right. done.
Qed.

(** ** C1: sticky cancellation *)

(** C1. Sticky cancellation: whenever the current status of the step a
    received value [s] is about is Cancelled, the arm of [run] leaves the
    step map as it is, so the status and the end time of that step do not
    change, and the cancellation loop is not entered. This holds for every
    received value, whatever its own status. *)
Theorem sticky_cancellation (steps : gmap Z gcbStep.t) (s : gcbStep.t) :
  gcbStep.status (steps !!! gcbStep.num s) = gcbStatusCancelled →
  apply steps s = steps
  ∧ gcbStep.status (apply steps s !!! gcbStep.num s) = gcbStatusCancelled
  ∧ gcbStep.endNano (apply steps s !!! gcbStep.num s)
    = gcbStep.endNano (steps !!! gcbStep.num s)
  ∧ cascadeRan steps s = false.
Proof.
  intros Hc.
  assert (Hout : recvStep steps s = NoMoreUpdates ∨ recvStep steps s = Suppressed).
  { destruct (decide (gcbStep.status s = gcbStatusUndef)).
    - left. by apply recvStep_undef.
    - right. by apply recvStep_cancelled. }
  assert (Hsame : apply steps s = steps).
  { unfold apply. by destruct Hout as [-> | ->]. }
  rewrite Hsame. repeat split; [done|].
  unfold cascadeRan. by destruct Hout as [-> | ->].
Qed.

Lemma sticky_cancellation_witness :
  gcbStep.status (demoSteps !!! gcbStep.num demoStaleDie) = gcbStatusCancelled
  ∧ apply demoSteps demoStaleDie = demoSteps
  ∧ cascadeRan demoSteps demoStaleDie = false.
Proof.
  assert (H : gcbStep.status (demoSteps !!! gcbStep.num demoStaleDie)
              = gcbStatusCancelled) by (vm_compute; reflexivity).
  split; [exact H|].
  destruct (sticky_cancellation demoSteps demoStaleDie H) as (H1 & _ & _ & H4).
  split; [exact H1 | exact H4].
Defined.

(** ** C2: cancellation cascade *)

(** C2. Cancellation cascade: when a transition [s] is applied (the
    guards of lines 103 and 108 let it through: its step is not Cancelled)
    and its status is Error, then afterwards every other step that was
    Running is Cancelled with the end time of [s] and its other fields as
    before, every other step that was not Running has its previous entry,
    steps that were absent stay absent, and the step of [s] itself holds
    the stored transition. *)
Theorem cancellation_cascade (steps : gmap Z gcbStep.t) (s : gcbStep.t) :
  applied steps s = true →
  gcbStep.status s = gcbStatusError →
  (∀ n step, n ≠ gcbStep.num s → steps !! n = Some step →
     gcbStep.status step = gcbStatusRunning →
     ∃ step', apply steps s !! n = Some step'
       ∧ gcbStep.status step' = gcbStatusCancelled
       ∧ gcbStep.endNano step' = gcbStep.endNano s
       ∧ step' = gcbStep.setEndNano (gcbStep.endNano s)
                   (gcbStep.setStatus gcbStatusCancelled step))
  ∧ (∀ n, n ≠ gcbStep.num s →
       gcbStep.status (steps !!! n) ≠ gcbStatusRunning →
       apply steps s !! n = steps !! n)
  ∧ apply steps s !! gcbStep.num s = Some (mergeStart steps s)
  ∧ cascadeRan steps s = true.
Proof.
  intros [Hu Hnc]%applied_iff He.
  repeat split.
  - intros n step Hn Hstep Hrun.
    rewrite apply_lookup_other by done.
    rewrite decide_True by done. rewrite Hstep. simpl.
    rewrite decide_True by done. eexists. repeat split.
  - intros n Hn Hnr.
    rewrite apply_lookup_other by done.
    rewrite decide_True by done.
    rewrite lookup_total_alt in Hnr.
    destruct (steps !! n) as [step|]; simpl in *; [|done].
    by rewrite decide_False.
  - by apply apply_lookup_target.
  - unfold cascadeRan. rewrite recvStep_stored by done.
    by rewrite decide_True.
Qed.

Lemma cancellation_cascade_witness :
  applied demoSteps demoFailure = true
  ∧ gcbStep.status demoFailure = gcbStatusError
  ∧ (∃ step', apply demoSteps demoFailure !! 1 = Some step'
       ∧ gcbStep.status step' = gcbStatusCancelled
       ∧ gcbStep.endNano step' = 10300)
  ∧ apply demoSteps demoFailure !! 2 = demoSteps !! 2
  ∧ cascadeRan demoSteps demoFailure = true.
Proof.
  assert (H1 : applied demoSteps demoFailure = true)
    by (vm_compute; reflexivity).
  assert (H2 : gcbStep.status demoFailure = gcbStatusError) by reflexivity.
  split; [exact H1|]. split; [exact H2|].
  destruct (cancellation_cascade demoSteps demoFailure H1 H2)
    as (Hcancel & Hkeep & _ & Hran).
  split; [|split; [|exact Hran]].
  - destruct (Hcancel 1 (gcbStep.mk gcbStatusRunning 1 "step_1" 0 50 0))
      as (step' & Hl & Hst & Hend & _);
      [vm_compute; discriminate | vm_compute; reflexivity | reflexivity |].
    exists step'. split; [exact Hl|]. split; [exact Hst | exact Hend].
  - apply Hkeep; vm_compute; discriminate.
Defined.

(** The scenario of the specification: A and B running, C fails. *)
Example cascade_scenario :
  apply demoSteps demoFailure !! 1
  = Some (gcbStep.mk gcbStatusCancelled 1 "step_1" 0 50 10300)
  ∧ apply demoSteps demoFailure !! 3
  = Some (gcbStep.mk gcbStatusError 3 "step_3" 1 80 10300).
Proof. split; vm_compute; reflexivity. Qed.

(** ** C7: the start time across updates *)

(** C7, as amended. For every step map and every received value [s]
    that carries no start time, a step that has an entry keeps the start
    time of that entry. When [s] is a transition (its status is not the
    undefined one) about a step whose entry is not Cancelled, the entry
    becomes [s] with the start time of the previous entry if [s] carries
    none and the step has an entry, and [s] itself if [s] carries a start
    time. *)
Theorem start_time_preservation (steps : gmap Z gcbStep.t) (s : gcbStep.t) :
  (gcbStep.startNano s = 0 →
   ∀ old, steps !! gcbStep.num s = Some old →
     ∃ new, apply steps s !! gcbStep.num s = Some new
       ∧ gcbStep.startNano new = gcbStep.startNano old)
  ∧ (gcbStep.status s ≠ gcbStatusUndef →
     gcbStep.status (steps !!! gcbStep.num s) ≠ gcbStatusCancelled →
     (gcbStep.startNano s = 0 →
      ∀ old, steps !! gcbStep.num s = Some old →
        apply steps s !! gcbStep.num s
        = Some (gcbStep.setStartNano (gcbStep.startNano old) s))
     ∧ (gcbStep.startNano s ≠ 0 →
        apply steps s !! gcbStep.num s = Some s)).
Proof.
  assert (Hmerge : gcbStep.status s ≠ gcbStatusUndef →
    gcbStep.status (steps !!! gcbStep.num s) ≠ gcbStatusCancelled →
    gcbStep.startNano s = 0 →
    ∀ old, steps !! gcbStep.num s = Some old →
      apply steps s !! gcbStep.num s
      = Some (gcbStep.setStartNano (gcbStep.startNano old) s)).
  { intros Hu Hnc H0 old Hold. rewrite apply_lookup_target by done.
    unfold mergeStart. rewrite decide_True by done.
    by rewrite lookup_total_alt, Hold. }
  split.
  - intros H0 old Hold.
    destruct (apply_unfold steps s) as [-> | [Hu Hnc]]; [by exists old|].
    eexists. split; [by apply Hmerge|]. done.
  - intros Hu Hnc. split; [by apply Hmerge|].
    intros H0. rewrite apply_lookup_target by done.
    unfold mergeStart. by rewrite decide_False.
Qed.

Lemma start_time_preservation_witness :
  gcbStep.status demoFailure ≠ gcbStatusUndef
  ∧ gcbStep.status (demoSteps !!! gcbStep.num demoFailure) ≠ gcbStatusCancelled
  ∧ apply demoSteps demoFailure !! 3
    = Some (gcbStep.mk gcbStatusError 3 "step_3" 1 80 10300)
  ∧ apply demoSteps demoRestart !! 1 = Some demoRestart.
Proof.
  assert (H1 : gcbStep.status demoFailure ≠ gcbStatusUndef) by discriminate.
  assert (H2 : gcbStep.status (demoSteps !!! gcbStep.num demoFailure)
               ≠ gcbStatusCancelled) by (vm_compute; discriminate).
  split; [exact H1|]. split; [exact H2|]. split.
  - destruct (start_time_preservation demoSteps demoFailure) as [_ Hst].
    destruct (Hst H1 H2) as [Hz _].
    apply (Hz eq_refl (gcbStep.mk gcbStatusRunning 3 "step_3" 0 80 0)).
    vm_compute. reflexivity.
  - assert (H3 : gcbStep.status demoRestart ≠ gcbStatusUndef) by discriminate.
    assert (H4 : gcbStep.status (demoSteps !!! gcbStep.num demoRestart)
                 ≠ gcbStatusCancelled) by (vm_compute; discriminate).
    destruct (start_time_preservation demoSteps demoRestart) as [_ Hst].
    destruct (Hst H3 H4) as [_ Hnz].
    apply Hnz. vm_compute. discriminate.
Defined.

(** The claim without the condition on the entry fails: step 2 of
    [demoSteps] has an entry, the stale "die" carries no start time, and
    nothing of it is stored. *)
Lemma start_time_not_stored_when_cancelled :
  gcbStep.startNano demoStaleDie = 0
  ∧ (∃ old, demoSteps !! gcbStep.num demoStaleDie = Some old
       ∧ apply demoSteps demoStaleDie !! gcbStep.num demoStaleDie = Some old
       ∧ apply demoSteps demoStaleDie !! gcbStep.num demoStaleDie
         ≠ Some (gcbStep.setStartNano (gcbStep.startNano old) demoStaleDie)).
Proof.
  split; [reflexivity|].
  exists (gcbStep.mk gcbStatusCancelled 2 "step_2" 0 55 10301).
  repeat split; try (vm_compute; reflexivity).
  vm_compute. discriminate.
Qed.

(** ** Invariants of the step map *)

Lemma keyed_empty : keyed ∅.
Proof. intros n s. by rewrite lookup_empty. Qed.

Lemma defined_empty : defined ∅.
Proof. intros n s. by rewrite lookup_empty. Qed.

Lemma apply_keyed steps s : keyed steps → keyed (apply steps s).
Proof.
  intros Hk. destruct (apply_unfold steps s) as [-> | [Hu Hc]]; [done|].
  intros n x Hx. destruct (decide (n = gcbStep.num s)) as [->|Hn].
  - rewrite apply_lookup_target in Hx by done.
    inversion Hx. apply mergeStart_num.
  - rewrite apply_lookup_other in Hx by done.
    case_decide; [|by eapply Hk].
    destruct (steps !! n) as [step|] eqn:E; simpl in Hx; [|done].
    inversion Hx. case_decide; simpl; by eapply Hk.
Qed.

Lemma apply_defined steps s : defined steps → defined (apply steps s).
Proof.
  intros Hd. destruct (apply_unfold steps s) as [-> | [Hu Hc]]; [done|].
  intros n x Hx. destruct (decide (n = gcbStep.num s)) as [->|Hn].
  - rewrite apply_lookup_target in Hx by done.
    inversion Hx. by rewrite mergeStart_status.
  - rewrite apply_lookup_other in Hx by done.
    case_decide; [|by eapply Hd].
    destruct (steps !! n) as [step|] eqn:E; simpl in Hx; [|done].
    inversion Hx. case_decide; simpl; [done | by eapply Hd].
Qed.

(** Every map [run] reaches from the empty one satisfies both. *)
Lemma applyAll_invariants (updates : list gcbStep.t) (steps : gmap Z gcbStep.t) :
  keyed steps → defined steps →
  keyed (applyAll steps updates) ∧ defined (applyAll steps updates).
Proof.
  revert steps. induction updates as [|s updates IH]; intros steps Hk Hd.
  - done.
  - simpl. apply IH; [by apply apply_keyed | by apply apply_defined].
Qed.

(** A cancelled step keeps its entry whatever is received afterwards,
    also for other steps. *)
Lemma applyAll_cancelled_forever (updates : list gcbStep.t)
    (steps : gmap Z gcbStep.t) (n : Z) :
  gcbStep.status (steps !!! n) = gcbStatusCancelled →
  applyAll steps updates !! n = steps !! n.
Proof.
  revert steps. induction updates as [|s updates IH]; intros steps Hc; [done|].
  simpl.
  assert (Hsame : apply steps s !! n = steps !! n).
  { destruct (apply_unfold steps s) as [-> | [Hu Hnc]]; [done|].
    destruct (decide (n = gcbStep.num s)) as [->|Hn]; [done|].
    rewrite apply_lookup_other by done.
    case_decide; [|done].
    rewrite lookup_total_alt in Hc.
    destruct (steps !! n) as [step|]; simpl in *; [|done].
    rewrite decide_False; [done|]. by rewrite Hc. }
  rewrite IH; [done|]. by rewrite lookup_total_alt, Hsame, <- lookup_total_alt.
Qed.

(** ** The comparison of [sort.Slice] *)

Lemma statusInt_inj (x y : gcbStatus) : statusInt x = statusInt y → x = y.
Proof. by destruct x, y. Qed.

Lemma less_iff (a b : gcbStep.t) : less a b = true ↔ lexBefore a b.
Proof.
  unfold less, lexBefore.
  case_bool_decide as Hs; simpl.
  - rewrite Hs.
    destruct (Z.eqb_spec (gcbStep.endNano a) (gcbStep.endNano b)); simpl.
    + destruct (Z.eqb_spec (gcbStep.startNano a) (gcbStep.startNano b)); simpl.
      * rewrite Z.ltb_lt. lia.
      * rewrite Z.geb_le. lia.
    + rewrite Z.geb_le. lia.
  - rewrite Z.ltb_lt.
    assert (statusInt (gcbStep.status a) ≠ statusInt (gcbStep.status b))
      by (intros ?; apply Hs; by apply statusInt_inj).
    lia.
Qed.

Lemma less_irrefl (a : gcbStep.t) : less a a = false.
Proof.
  apply not_true_is_false. rewrite less_iff. unfold lexBefore. lia.
Qed.

Lemma less_trans (a b c : gcbStep.t) :
  less a b = true → less b c = true → less a c = true.
Proof. rewrite !less_iff. unfold lexBefore. lia. Qed.

Lemma less_asym (a b : gcbStep.t) : less a b = true → less b a = false.
Proof.
  intros H. apply not_true_is_false. revert H.
  rewrite !less_iff. unfold lexBefore. lia.
Qed.

(** Two steps that [less] does not order have the same step number. *)
Lemma less_total (a b : gcbStep.t) :
  gcbStep.num a ≠ gcbStep.num b → less a b = true ∨ less b a = true.
Proof. rewrite !less_iff. unfold lexBefore. lia. Qed.

(** On the four statuses a stored step can have, [less] is the order of
    the specification. *)
Lemma specBefore_less (a b : gcbStep.t) :
  gcbStep.status a ≠ gcbStatusUndef → gcbStep.status b ≠ gcbStatusUndef →
  specBefore a b ↔ less a b = true.
Proof.
  intros Ha Hb. rewrite less_iff. unfold specBefore, lexBefore.
  destruct a as [sa ? ? ? ? ?], b as [sb ? ? ? ? ?]. simpl in *.
  destruct sa, sb; try done; simpl; lia.
Qed.

#[local] Instance lessP_trans : Transitive (λ a b, less a b = true).
Proof. intros a b c. apply less_trans. Qed.

(** ** Insertion sort *)

Lemma insertStep_perm (x : gcbStep.t) (l : list gcbStep.t) :
  insertStep x l ≡ₚ x :: l.
Proof.
  induction l as [|y l IH]; simpl; [done|].
  destruct (less x y); [done|].
  rewrite IH. apply perm_swap.
Qed.

Lemma sortSlice_perm (l : list gcbStep.t) : sortSlice l ≡ₚ l.
Proof.
  induction l as [|x l IH]; simpl; [done|].
  rewrite insertStep_perm. by rewrite IH.
Qed.

Lemma insertStep_sorted (x : gcbStep.t) (l : list gcbStep.t) :
  Forall (λ y, gcbStep.num y ≠ gcbStep.num x) l →
  StronglySorted (λ a b, less a b = true) l →
  StronglySorted (λ a b, less a b = true) (insertStep x l).
Proof.
  intros Hne Hs. induction Hs as [|y l Hs IH Hy]; simpl.
  - repeat constructor.
  - apply Forall_cons in Hne as [Hxy Hne].
    destruct (less x y) eqn:E.
    + constructor; [by constructor|].
      constructor; [done|].
      eapply Forall_impl; [exact Hy|].
      intros z Hz. by eapply less_trans.
    + constructor; [by apply IH|].
      rewrite insertStep_perm. constructor; [|done].
      destruct (less_total y x Hxy) as [H|H]; [done|congruence].
Qed.

Lemma sortSlice_sorted (l : list gcbStep.t) :
  NoDup (gcbStep.num <$> l) →
  StronglySorted (λ a b, less a b = true) (sortSlice l).
Proof.
  induction l as [|x l IH]; simpl; intros Hnd.
  - constructor.
  - apply NoDup_cons in Hnd as [Hx Hnd].
    apply insertStep_sorted; [|by apply IH].
    rewrite sortSlice_perm. apply Forall_forall. intros y Hy Heq.
    apply Hx. rewrite <- Heq. by apply list_elem_of_fmap_2.
Qed.

(** A slice that [sort.SliceIsSorted] accepts (no element is [less] than
    its predecessor) is strictly ordered when its step numbers differ. *)
Lemma sliceIsSorted_strict (l : list gcbStep.t) :
  NoDup (gcbStep.num <$> l) →
  Sorted (λ a b, less b a = false) l →
  StronglySorted (λ a b, less a b = true) l.
Proof.
  intros Hnd Hs. apply Sorted_StronglySorted; [apply _|].
  induction Hs as [|x l Hs IH Hhd]; [constructor|].
  apply NoDup_cons in Hnd as [Hx Hnd].
  constructor; [by apply IH|].
  destruct Hhd as [|y l' Hxy]; constructor.
  destruct (less_total x y) as [H|H]; [|done|congruence].
  intros Heq. apply Hx. rewrite Heq. simpl. left.
Qed.

(** The step numbers of the values of a map that is [keyed] are its keys,
    so they are pairwise different. *)
Lemma stepValues_nums (steps : gmap Z gcbStep.t) :
  keyed steps → NoDup (gcbStep.num <$> stepValues steps).
Proof.
  intros Hk. unfold stepValues.
  assert (Heq : gcbStep.num <$> (map_to_list steps).*2 = (map_to_list steps).*1).
  { rewrite <- list_fmap_compose. apply list_fmap_ext.
    intros i [k v] Hkv. simpl. apply (Hk k v).
    apply elem_of_map_to_list. eapply list_elem_of_lookup_2. exact Hkv. }
  rewrite Heq. apply NoDup_fst_map_to_list.
Qed.

Lemma stepValues_length (steps : gmap Z gcbStep.t) :
  length (stepValues steps) = size steps.
Proof. unfold stepValues. by rewrite length_fmap, length_map_to_list. Qed.

Lemma sortedSteps_length (steps : gmap Z gcbStep.t) :
  length (sortedSteps steps) = size steps.
Proof.
  unfold sortedSteps. rewrite (Permutation_length (sortSlice_perm _)).
  apply stepValues_length.
Qed.

Lemma elem_of_stepValues (steps : gmap Z gcbStep.t) (s : gcbStep.t) :
  s ∈ stepValues steps ↔ ∃ n, steps !! n = Some s.
Proof.
  unfold stepValues. rewrite list_elem_of_fmap. split.
  - intros [[k v] [-> H]]. exists k. by apply elem_of_map_to_list.
  - intros [n H]. exists (n, s). split; [done|]. by apply elem_of_map_to_list.
Qed.

Lemma sortedSteps_nonempty (steps : gmap Z gcbStep.t) :
  steps ≠ ∅ → ∃ s0 rest, sortedSteps steps = s0 :: rest.
Proof.
  intros Hne. destruct (sortedSteps steps) as [|s0 rest] eqn:E; [|eauto].
  exfalso. apply Hne. apply map_size_empty_inv.
  by rewrite <- sortedSteps_length, E.
Qed.

Lemma stepValues_distinct (steps : gmap Z gcbStep.t) (a b : gcbStep.t) :
  keyed steps → a ∈ stepValues steps → b ∈ stepValues steps →
  a ≠ b → gcbStep.num a ≠ gcbStep.num b.
Proof.
  intros Hk [na Ha]%elem_of_stepValues [nb Hb]%elem_of_stepValues Hab Heq.
  apply Hab. rewrite (Hk _ _ Ha), (Hk _ _ Hb) in Heq. subst nb. congruence.
Qed.

Lemma StronglySorted_change {A} (R R' : relation A) (l : list A) :
  (∀ a b, a ∈ l → b ∈ l → R a b → R' a b) →
  StronglySorted R l → StronglySorted R' l.
Proof.
  intros Himp Hs. induction Hs as [|x l Hs IH Hx]; constructor.
  - apply IH. intros a b Ha Hb. apply Himp; by right.
  - apply Forall_forall. intros y Hy. apply Himp; [left | by right |].
    rewrite Forall_forall in Hx. by apply Hx.
Qed.

(** ** C6: the sort order *)

(** C6. Sort order: for every step map whose entries are stored under
    their step numbers and have one of the four statuses (the maps [run]
    builds, see [applyAll_invariants]), the slice the synthesiser works on
    is a rearrangement of the values of the map, ordered by status in the
    precedence Error, Cancelled, Running, Done, then by end time
    descending, then by start time descending, then by step number
    ascending; the comparison of the code is this order; the order is
    irreflexive, transitive and total on the steps of the map; and every
    rearrangement of the values that is sorted for the code's comparison
    is this same slice, as is the result of sorting the values taken in
    any other order: the slice does not depend on the order in which the
    map is traversed nor on the sorting algorithm. *)
Theorem sort_order_unique (steps : gmap Z gcbStep.t) :
  keyed steps → defined steps →
  sortedSteps steps ≡ₚ stepValues steps
  ∧ StronglySorted specBefore (sortedSteps steps)
  ∧ (∀ a b, a ∈ stepValues steps → b ∈ stepValues steps →
       (less a b = true ↔ specBefore a b))
  ∧ (∀ a, ¬ specBefore a a)
  ∧ (∀ a b c, specBefore a b → specBefore b c → specBefore a c)
  ∧ (∀ a b, a ∈ stepValues steps → b ∈ stepValues steps → a ≠ b →
       specBefore a b ∨ specBefore b a)
  ∧ (∀ l, l ≡ₚ stepValues steps →
       Sorted (λ a b, less b a = false) l → l = sortedSteps steps)
  ∧ (∀ l, l ≡ₚ stepValues steps → sortSlice l = sortedSteps steps).
Proof.
  intros Hk Hd.
  assert (Hperm : sortedSteps steps ≡ₚ stepValues steps)
    by apply sortSlice_perm.
  assert (Hdef : ∀ a, a ∈ stepValues steps →
                      gcbStep.status a ≠ gcbStatusUndef).
  { intros a [n Ha]%elem_of_stepValues. by apply (Hd n a). }
  assert (Hsorted : StronglySorted (λ a b, less a b = true) (sortedSteps steps)).
  { apply sortSlice_sorted. by apply stepValues_nums. }
  split; [exact Hperm|]. split.
  { eapply StronglySorted_change; [|exact Hsorted].
    intros a b Ha Hb Hab. rewrite Hperm in Ha, Hb.
    apply specBefore_less; auto. }
  split.
  { intros a b Ha Hb. symmetry. apply specBefore_less; auto. }
  split.
  { intros a. unfold specBefore. lia. }
  split.
  { intros a b c. unfold specBefore. lia. }
  split.
  { intros a b Ha Hb Hab.
    destruct (less_total a b) as [H|H].
    - by eapply stepValues_distinct.
    - left. apply specBefore_less; auto.
    - right. apply specBefore_less; auto. }
  split.
  { intros l Hl Hsl.
    apply (StronglySorted_unique_strong (λ a b, less a b = true)).
    - intros x1 x2 _ _ H1 H2. apply less_asym in H1. congruence.
    - apply sliceIsSorted_strict; [|done].
      rewrite Hl. by apply stepValues_nums.
    - exact Hsorted.
    - by rewrite Hl, Hperm. }
  intros l Hl.
  apply (StronglySorted_unique_strong (λ a b, less a b = true)).
  - intros x1 x2 _ _ H1 H2. apply less_asym in H1. congruence.
  - apply sortSlice_sorted. rewrite Hl. by apply stepValues_nums.
  - exact Hsorted.
  - by rewrite sortSlice_perm, Hl, Hperm.
Qed.

Lemma demoSteps_keyed : keyed demoSteps.
Proof.
  unfold keyed, demoSteps.
  repeat (apply map_Forall_insert_2; [reflexivity|]).
  apply map_Forall_empty.
Qed.

Lemma demoSteps_defined : defined demoSteps.
Proof.
  unfold defined, demoSteps.
  repeat (apply map_Forall_insert_2; [discriminate|]).
  apply map_Forall_empty.
Qed.

Lemma sort_order_unique_witness :
  keyed demoSteps ∧ defined demoSteps
  ∧ sortedSteps demoSteps
    = [ gcbStep.mk gcbStatusCancelled 2 "step_2" 0 55 10301;
        gcbStep.mk gcbStatusRunning 3 "step_3" 0 80 0;
        gcbStep.mk gcbStatusRunning 1 "step_1" 0 50 0 ].
Proof.
  split; [exact demoSteps_keyed|]. split; [exact demoSteps_defined|].
  destruct (sort_order_unique demoSteps demoSteps_keyed demoSteps_defined)
    as (_ & _ & _ & _ & _ & _ & Huniq & _).
  symmetry. apply Huniq.
  - vm_compute. apply perm_swap.
  - repeat constructor.
Defined.

(** ** The synthesiser on a non-empty map *)

Lemma gcb2gh_nonempty (url : urlPackage) (build : buildContext.t)
    (steps : gmap Z gcbStep.t) (numSteps nowNano : Z) :
  steps ≠ ∅ →
  ∃ s0 rest,
    sortedSteps steps = s0 :: rest
    ∧ gcb2gh url build steps numSteps nowNano
      = Some (ghStatusUpdate.mk
                (commitStateOf (gcbStep.status s0) numSteps
                   (Z.of_nat (size steps)))
                (targetURL url build (gcbStep.num s0))
                (trim (describe nowNano gcbStatusUndef (sortedSteps steps)))
                (buildContext.Context build)).
Proof.
  intros Hne. destruct (sortedSteps_nonempty steps Hne) as (s0 & rest & E).
  exists s0, rest. split; [done|].
  unfold gcb2gh. rewrite <- (sortedSteps_length steps). by rewrite E.
Qed.

(** The updates that [TestOK] and [TestOKManifest] expect (main_test.go,
    lines 40-45 and 75-80), on the step maps after 2, 4, 5, 6 and 9
    events. The ids of the tests hold no byte that [net/url] escapes. *)
Example testOK_updates :
  gcb2gh demoUrl demoBuild (demoTestSteps ∅ 2) 0 1000030000000
  = Some (ghStatusUpdate.mk "success"
      "https://console.cloud.google.com/cloud-build/builds/build-123;step=0?project=gcb-project"
      "Done: step_0" "gcb")
  ∧ gcb2gh demoUrl demoBuild (demoTestSteps ∅ 4) 0 1000070000000
  = Some (ghStatusUpdate.mk "pending"
      "https://console.cloud.google.com/cloud-build/builds/build-123;step=2?project=gcb-project"
      "Running: step_2, step_1; Done: step_0" "gcb")
  ∧ gcb2gh demoUrl demoBuild (demoTestSteps ∅ 5) 0 1010100000000
  = Some (ghStatusUpdate.mk "pending"
      "https://console.cloud.google.com/cloud-build/builds/build-123;step=3?project=gcb-project"
      "Running: step_3 10s, step_2 10s, step_1 10s; Done: step_0" "gcb")
  ∧ gcb2gh demoUrl demoBuild (demoTestSteps ∅ 6) 0 1010250000000
  = Some (ghStatusUpdate.mk "pending"
      "https://console.cloud.google.com/cloud-build/builds/build-123;step=3?project=gcb-project"
      "Running: step_3 10s, step_2 10s; Done: step_1 10s, step_0" "gcb")
  ∧ gcb2gh demoUrl demoBuild (demoTestSteps ∅ 9) 0 1010400000000
  = Some (ghStatusUpdate.mk "error"
      "https://console.cloud.google.com/cloud-build/builds/build-123;step=3?project=gcb-project"
      "Error: step_3 10s; Cancelled: step_2 10s; Done: step_1 10s, step_0"
      "gcb").
Proof. repeat split; vm_compute; reflexivity. Qed.

Example testOKManifest_updates :
  gcb2gh demoUrl demoBuild (demoTestSteps demoManifest 2)
    (Z.of_nat (size demoManifest)) 1000030000000
  = Some (ghStatusUpdate.mk "pending"
      "https://console.cloud.google.com/cloud-build/builds/build-123;step=0?project=gcb-project"
      "Done: quick" "gcb")
  ∧ gcb2gh demoUrl demoBuild (demoTestSteps demoManifest 9)
      (Z.of_nat (size demoManifest)) 1010400000000
  = Some (ghStatusUpdate.mk "error"
      "https://console.cloud.google.com/cloud-build/builds/build-123;step=3?project=gcb-project"
      "Error: failure 10s; Cancelled: incomplete 10s; Done: slow 10s, quick"
      "gcb").
Proof. repeat split; vm_compute; reflexivity. Qed.

(** ** C4: the coarse status *)

(** C4. Coarse status derivation: for every non-empty step map the
    synthesiser returns an update, and with [s0] the first step of the
    sorted slice: if [s0] is Error the state is "error"; if it is Running
    the state is "pending"; if it is Done the state is "success" when the
    expected number of steps is 0 or equals the number of steps in the
    map, and "pending" otherwise. *)
Theorem coarse_status_derivation (url : urlPackage) (build : buildContext.t)
    (steps : gmap Z gcbStep.t) (numSteps nowNano : Z) :
  steps ≠ ∅ →
  ∃ s0 rest gh,
    sortedSteps steps = s0 :: rest
    ∧ gcb2gh url build steps numSteps nowNano = Some gh
    ∧ (gcbStep.status s0 = gcbStatusError →
         ghStatusUpdate.State gh = ghCommitStateError)
    ∧ (gcbStep.status s0 = gcbStatusRunning →
         ghStatusUpdate.State gh = ghCommitStatePending)
    ∧ (gcbStep.status s0 = gcbStatusDone →
         (numSteps = 0 ∨ Z.of_nat (size steps) = numSteps →
            ghStatusUpdate.State gh = ghCommitStateSuccess)
         ∧ (numSteps ≠ 0 ∧ Z.of_nat (size steps) ≠ numSteps →
            ghStatusUpdate.State gh = ghCommitStatePending)).
Proof.
  intros Hne.
  destruct (gcb2gh_nonempty url build steps numSteps nowNano Hne)
    as (s0 & rest & E & Hgh).
  eexists s0, rest, _. split; [exact E|]. split; [exact Hgh|]. simpl.
  split; [by intros ->|]. split; [by intros ->|].
  intros ->. simpl. split.
  - intros [->|Hn]; [done|].
    apply Z.eqb_eq in Hn. rewrite Hn. by rewrite orb_true_r.
  - intros [H0 Hn]. apply Z.eqb_neq in H0, Hn. by rewrite H0, Hn.
Qed.

Lemma coarse_status_derivation_witness :
  apply demoSteps demoFailure ≠ ∅
  ∧ ghStatusUpdate.State <$> gcb2gh demoUrl demoBuild
      (apply demoSteps demoFailure) 0 20000
    = Some ghCommitStateError.
Proof.
  assert (Hne : apply demoSteps demoFailure ≠ ∅) by has_entry 3.
  split; [exact Hne|].
  destruct (coarse_status_derivation demoUrl demoBuild
              (apply demoSteps demoFailure) 0 20000 Hne)
    as (s0 & rest & gh & E & -> & Herr & _).
  simpl. f_equal. apply Herr.
  assert (Hs : sortedSteps (apply demoSteps demoFailure)
               = [ gcbStep.mk gcbStatusError 3 "step_3" 1 80 10300;
                   gcbStep.mk gcbStatusCancelled 2 "step_2" 0 55 10301;
                   gcbStep.mk gcbStatusCancelled 1 "step_1" 0 50 10300 ])
    by (vm_compute; reflexivity).
  rewrite Hs in E. by inversion E.
Defined.

(** ** C3: the three coarse states *)

(** The state is one of the three constants exactly when the first sorted
    step is not Cancelled (nor undefined). *)
Lemma commitStateOf_cases (s0 : gcbStatus) (numSteps lenSt : Z) :
  match s0 with
  | gcbStatusError | gcbStatusRunning | gcbStatusDone =>
      commitStateOf s0 numSteps lenSt
      ∈ [ghCommitStatePending; ghCommitStateSuccess; ghCommitStateError]
  | gcbStatusCancelled | gcbStatusUndef =>
      commitStateOf s0 numSteps lenSt = EmptyString
  end.
Proof.
  destruct s0; simpl; try done.
  - set_solver.
  - set_solver.
  - destruct (_ || _); set_solver.
Qed.

(** C3, at the failing input. After the "start" and the "kill" of step 0
    the map holds one Cancelled step; the synthesiser returns an update
    whose state is the empty string, which is none of "pending",
    "success" and "error". *)
Theorem coarse_state_cancelled_first (url : urlPackage)
    (build : buildContext.t) (numSteps nowNano : Z) :
  demoKilledSteps
  = {[ 0 := gcbStep.mk gcbStatusCancelled 0 "step_0" 0 1000 5000 ]}
  ∧ ghStatusUpdate.State <$> gcb2gh url build demoKilledSteps numSteps nowNano
    = Some EmptyString
  ∧ EmptyString ∉ [ghCommitStatePending; ghCommitStateSuccess; ghCommitStateError].
Proof.
  assert (Hm : demoKilledSteps
    = {[ 0 := gcbStep.mk gcbStatusCancelled 0 "step_0" 0 1000 5000 ]})
    by (vm_compute; reflexivity).
  split; [exact Hm|]. split.
  - assert (Hs : sortedSteps demoKilledSteps
      = [gcbStep.mk gcbStatusCancelled 0 "step_0" 0 1000 5000])
      by (vm_compute; reflexivity).
    unfold gcb2gh. rewrite Hs. reflexivity.
  - unfold ghCommitStatePending, ghCommitStateSuccess, ghCommitStateError.
    rewrite !elem_of_cons, elem_of_nil. intros [H|[H|[H|[]]]]; discriminate.
Qed.

(** ** C5: truncation of the description *)



Lemma string_app_empty_r (s : string) : s +:+ EmptyString = s.
Proof.
  induction s as [|c s IH]; [done|].
  change (String c s +:+ EmptyString) with (String c (s +:+ EmptyString)).
  by rewrite IH.
Qed.







(** ** C8: exit codes *)





(** ** C9: the empty snapshot *)

Lemma gcb2gh_None_iff (url : urlPackage) (build : buildContext.t)
    (steps : gmap Z gcbStep.t) (numSteps nowNano : Z) :
  gcb2gh url build steps numSteps nowNano = None ↔ steps = ∅.
Proof.
  split.
  - intros HNone. destruct (decide (steps = ∅)) as [|Hne]; [done|].
    destruct (gcb2gh_nonempty url build steps numSteps nowNano Hne)
      as (s0 & rest & _ & Hgh). congruence.
  - intros ->. reflexivity.
Qed.

(** C9. The synthesiser fails (index out of range) exactly on the empty
    step map. When the event stream is established and ends without any
    event of a step, [dockerUpdates] sends nothing and returns [nil];
    [run] then still holds the empty map, and each wake-up its [select]
    can have leads to the synthesiser on that map: the timer at once, or
    the [nil] from [dockerErrs] followed by the zero value of the closed
    [gcbUpdates] or by the timer. So the loop ends in the panic. *)
Theorem empty_snapshot_panics (url : urlPackage) (build : buildContext.t)
    (ids : gmap Z string) (status dump : string) (body : list dockerEvent.t)
    (numSteps : Z) (w : world.t) :
  omap (stepOfEvent ids) body = [] →
  (∀ steps nowNano,
     gcb2gh url build steps numSteps nowNano = None ↔ steps = ∅)
  ∧ dockerUpdates ids (GetResponse StatusOK status dump body None)
    = Finished [] None
  ∧ loopState.steps initialState = ∅
  ∧ iteration url build numSteps initialState KickFired w = Panic
  ∧ iteration url build numSteps initialState (RecvDockerErr None) w
    = Continue (loopState.mk ∅ false true)
  ∧ iteration url build numSteps (loopState.mk ∅ false true)
      (RecvUpdate gcbStep.zero) w = Panic
  ∧ iteration url build numSteps (loopState.mk ∅ false true) KickFired w
    = Panic
  ∧ runLoop url build numSteps initialState (endOfStreamTrace w) = Panic.
Proof.
  intros Hnone. split.
  { intros steps nowNano. apply gcb2gh_None_iff. }
  split.
  { unfold dockerUpdates. simpl. by rewrite Hnone. }
  repeat split.
Qed.

Lemma empty_snapshot_panics_witness :
  omap (stepOfEvent ∅) [demoOtherEvent] = []
  ∧ dockerUpdates ∅ (GetResponse StatusOK "200 OK" EmptyString [demoOtherEvent] None)
    = Finished [] None
  ∧ runLoop demoUrl demoBuild 0 initialState (endOfStreamTrace demoWorld)
    = Panic.
Proof.
  assert (H : omap (stepOfEvent ∅) [demoOtherEvent] = [])
    by (vm_compute; reflexivity).
  destruct (empty_snapshot_panics demoUrl demoBuild ∅ "200 OK" EmptyString
              [demoOtherEvent] 0 demoWorld H)
    as (_ & Hdu & _ & _ & _ & _ & _ & Hrun).
  split; [exact H|]. split; [exact Hdu | exact Hrun].
Defined.

(** ** C10: prefix matching and numerals that do not parse *)

Lemma atoiDigits_err (s : string) (n v : Z) (e : numError) :
  atoiDigits s n = (v, Some e) → v = 0 ∧ e = ErrSyntax.
Proof.
  revert n. induction s as [|c s IH]; intros n; simpl.
  - discriminate.
  - destruct (isDigit c); [apply IH|]. by intros [= <- <-].
Qed.

Lemma parseUintLoop_err (s : string) (n v : Z) (e : numError) :
  parseUintLoop s n = (v, Some e) →
  (e = ErrSyntax ∧ v = 0) ∨ (e = ErrRange ∧ v = maxUint64).
Proof.
  revert n. induction s as [|c s IH]; intros n; simpl.
  - discriminate.
  - destruct (isDigit c); [|intros [= <- <-]; by left].
    destruct (_ <=? n); [intros [= <- <-]; by right|].
    destruct (maxUint64 <? _); [intros [= <- <-]; by right|].
    apply IH.
Qed.

Lemma ParseUint_err (s : string) (v : Z) (e : numError) :
  ParseUint s = (v, Some e) →
  (e = ErrSyntax ∧ v = 0) ∨ (e = ErrRange ∧ v = maxUint64).
Proof.
  destruct s as [|c s]; [intros [= <- <-]; by left|].
  apply parseUintLoop_err.
Qed.

Lemma ParseInt_err (s : string) (v : Z) (e : numError) :
  ParseInt s = (v, Some e) →
  (e = ErrSyntax ∧ v = 0)
  ∨ (e = ErrRange ∧ (v = 2 ^ 63 - 1 ∨ v = - 2 ^ 63)).
Proof.
  unfold ParseInt. destruct s as [|c0 rest]; [intros [= <- <-]; by left|].
  destruct (ParseUint _) as [un [[]|]]; [intros [= <- <-]; by left| |].
  - destruct (_ && _); [intros [= <- <-]; right; split; [done|by left]|].
    destruct (_ && _); [intros [= <- <-]; right; split; [done|by right]|].
    discriminate.
  - destruct (_ && _); [intros [= <- <-]; right; split; [done|by left]|].
    destruct (_ && _); [intros [= <- <-]; right; split; [done|by right]|].
    discriminate.
Qed.

Lemma Atoi_err (s : string) (v : Z) (e : numError) :
  Atoi s = (v, Some e) →
  (e = ErrSyntax ∧ v = 0)
  ∨ (e = ErrRange ∧ (v = 2 ^ 63 - 1 ∨ v = - 2 ^ 63)).
Proof.
  unfold Atoi. destruct (_ && _); [|apply ParseInt_err].
  destruct s as [|c0 rest]; [intros [= <- <-]; by left|].
  destruct (_ && _); [intros [= <- <-]; by left|].
  destruct (atoiDigits _ 0) as [n [e'|]] eqn:E; [|discriminate].
  intros [= <- <-]. left. apply atoiDigits_err in E as [_ ->]. done.
Qed.

(** A syntax error gives 0. *)
Lemma atoi_syntax_error (s : string) :
  snd (Atoi s) = Some ErrSyntax → atoi s = 0.
Proof.
  unfold atoi. destruct (Atoi s) as [v e] eqn:E. simpl. intros ->.
  apply Atoi_err in E as [[_ ->]|[? _]]; [done|discriminate].
Qed.


(** A text of fewer than 19 bytes can only fail with a syntax error. *)
Lemma Atoi_short_failure (s : string) :
  (String.length s < 19)%nat → snd (Atoi s) ≠ None →
  snd (Atoi s) = Some ErrSyntax ∧ atoi s = 0.
Proof.
  intros Hlen Herr.
  assert (Hs : snd (Atoi s) = Some ErrSyntax).
  { revert Herr. unfold Atoi.
    destruct (Z.ltb_spec 0 (Z.of_nat (String.length s))) as [Hpos|Hz]; simpl.
    - destruct (Z.ltb_spec (Z.of_nat (String.length s)) 19); [|lia].
      destruct s as [|c0 rest]; [done|].
      destruct (_ && _); [done|].
      destruct (atoiDigits _ 0) as [n [e'|]] eqn:E; simpl; [|done].
      intros _. apply atoiDigits_err in E as [_ ->]. done.
    - destruct s; [done|simpl in Hz; lia]. }
  split; [done|]. by apply atoi_syntax_error.
Qed.

Lemma HasPrefix_false_skipped (ids : gmap Z string) (e : dockerEvent.t) :
  HasPrefix (eventName e) "step_" = false → stepOfEvent ids e = None.
Proof. intros H. unfold stepOfEvent. by rewrite H. Qed.




(** * Further properties of the code *)

(** ** The environment of [run] *)

Lemma orDefault_nonempty (v d : string) :
  d ≠ EmptyString → orDefault v d ≠ EmptyString.
Proof. intros Hd. unfold orDefault. by case_decide. Qed.

(** X1. [run] needs four variables: the build context is made exactly
    when GITHUB_TOKEN, GITHUB_USER, GITHUB_REPO and COMMIT_SHA are all
    set to a non-empty value; otherwise [run] returns an error before it
    reads the manifest or any event, whatever the wake-ups would be, and
    the process exits with status 1. *)
Theorem runConfig_required (env : gmap string string) :
  ((∃ build, runConfig env = inr build) ↔
     Getenv env "GITHUB_TOKEN" ≠ EmptyString
     ∧ Getenv env "GITHUB_USER" ≠ EmptyString
     ∧ Getenv env "GITHUB_REPO" ≠ EmptyString
     ∧ Getenv env "COMMIT_SHA" ≠ EmptyString)
  ∧ (∀ err, runConfig env = inl err →
       mainExit (Some err) = 1
       ∧ ∀ url file trace, run url env file trace = Return (Some err)).
Proof.
  split.
  - unfold runConfig, readEnv. simpl. split.
    + intros [build Hb]. repeat case_decide; try discriminate. done.
    + intros (Ht & Hu & Hr & Hs). rewrite !decide_False by done. eauto.
  - intros err Herr. split.
    + revert Herr. unfold runConfig.
      repeat case_decide; intros [= <-]; reflexivity.
    + intros url file trace. unfold run. by rewrite Herr.
Qed.

Lemma runConfig_required_witness :
  (∃ err, runConfig ∅ = inl err
     ∧ mainExit (Some err) = 1
     ∧ run demoUrl ∅ (Decoded []) (endOfStreamTrace demoWorld)
       = Return (Some err)).
Proof.
  destruct (runConfig ∅) as [err|build] eqn:E; [|vm_compute in E; discriminate].
  exists err. split; [reflexivity|].
  destruct (runConfig_required ∅) as [_ H].
  destruct (H err E) as [H1 H2]. split; [exact H1 | apply H2].
Defined.

(** X2. When the build context is made, the docker host, the GitHub API
    and the status context are never empty: each is the value of its
    variable, or its default ("unix:///var/run/docker.sock",
    "https://api.github.com", "gcb") when the variable is empty or not
    set; the four required fields are the non-empty values of their
    variables, and the project, the build id and the manifest path are
    taken as they are. *)
Theorem runConfig_defaults (env : gmap string string)
    (build : buildContext.t) :
  runConfig env = inr build →
  buildContext.Docker build
    = orDefault (Getenv env "DOCKER_HOST") "unix:///var/run/docker.sock"
  ∧ buildContext.GitHub build
    = orDefault (Getenv env "GITHUB_API") "https://api.github.com"
  ∧ buildContext.Context build
    = orDefault (Getenv env "STATUS_CONTEXT") "gcb"
  ∧ buildContext.Docker build ≠ EmptyString
  ∧ buildContext.GitHub build ≠ EmptyString
  ∧ buildContext.Context build ≠ EmptyString
  ∧ (buildContext.Token build = Getenv env "GITHUB_TOKEN"
     ∧ buildContext.Token build ≠ EmptyString)
  ∧ (buildContext.User build = Getenv env "GITHUB_USER"
     ∧ buildContext.User build ≠ EmptyString)
  ∧ (buildContext.Repo build = Getenv env "GITHUB_REPO"
     ∧ buildContext.Repo build ≠ EmptyString)
  ∧ (buildContext.SHA build = Getenv env "COMMIT_SHA"
     ∧ buildContext.SHA build ≠ EmptyString)
  ∧ buildContext.Project build = Getenv env "PROJECT_ID"
  ∧ buildContext.ID build = Getenv env "BUILD_ID"
  ∧ buildContext.Manifest build = Getenv env "BUILD_MANIFEST".
Proof.
  unfold runConfig, readEnv. simpl.
  repeat case_decide; try discriminate. intros [= <-]. simpl.
  repeat split; try done; by apply orDefault_nonempty.
Qed.

Lemma runConfig_defaults_witness :
  ∃ build, runConfig demoEnv = inr build
    ∧ buildContext.Docker build = "unix:///var/run/docker.sock"
    ∧ buildContext.GitHub build = "https://api.github.com"
    ∧ buildContext.Context build = "gcb-test".
Proof.
  destruct (runConfig demoEnv) as [err|build] eqn:E;
    [vm_compute in E; discriminate|].
  exists build. split; [reflexivity|].
  destruct (runConfig_defaults demoEnv build E) as (H1 & H2 & H3 & _).
  rewrite H1, H2, H3. repeat split.
Defined.

(** ** The manifest *)

Lemma manifestLoop_lookup (steps : list manifestStep.t) (n : Z)
    (ids : gmap Z string) (k : Z) :
  manifestLoop n steps ids !! k =
    if decide (n ≤ k < n + Z.of_nat (length steps))
    then manifestStep.ID <$> steps !! Z.to_nat (k - n)
    else ids !! k.
Proof.
  revert n ids. induction steps as [|s steps IH]; intros n ids; simpl.
  - case_decide; [lia|done].
  - rewrite IH. destruct (decide (k = n)) as [->|Hne].
    + rewrite decide_False by lia. rewrite lookup_insert_eq.
      rewrite decide_True by lia. by rewrite Z.sub_diag.
    + rewrite lookup_insert_ne by done.
      destruct (decide (n + 1 ≤ k < n + 1 + Z.of_nat (length steps))).
      * rewrite decide_True by lia.
        replace (Z.to_nat (k - n)) with (S (Z.to_nat (k - (n + 1)))) by lia.
        done.
      * by rewrite decide_False by lia.
Qed.

Lemma manifestLoop_size (steps : list manifestStep.t) (n : Z)
    (ids : gmap Z string) :
  (∀ k, n ≤ k → ids !! k = None) →
  size (manifestLoop n steps ids) = (size ids + length steps)%nat.
Proof.
  revert n ids. induction steps as [|s steps IH]; intros n ids Hfree; simpl.
  - lia.
  - rewrite (IH (n + 1)).
    + rewrite map_size_insert_None by (apply Hfree; lia). lia.
    + intros k Hk. rewrite lookup_insert_ne by lia. apply Hfree. lia.
Qed.

Lemma readManifestIDs_lookup_aux (mani : string)
    (steps : list manifestStep.t) :
  mani ≠ EmptyString →
  ∀ n, readManifestIDs mani (Decoded steps) !! n =
       if decide (0 ≤ n < Z.of_nat (length steps))
       then manifestStep.ID <$> steps !! Z.to_nat n
       else None.
Proof.
  intros Hm n. unfold readManifestIDs. rewrite decide_False by done.
  rewrite manifestLoop_lookup, lookup_empty.
  rewrite Z.sub_0_r. by repeat case_decide.
Qed.

(** X3. [readManifestIDs] never fails: with an empty path, a file that
    cannot be opened or a file that does not decode it gives the empty
    map. With a decoded manifest, the map holds the id of the step at
    index [i] under the key [i] for every step, also for a step whose id
    is empty, and nothing else; so its size, the expected number of steps
    of [run], is the number of steps of the manifest. *)
Theorem readManifestIDs_steps (mani : string) (file : manifestFile) :
  readManifestIDs EmptyString file = ∅
  ∧ (∀ err, readManifestIDs mani (OpenFails err) = ∅)
  ∧ (∀ err, readManifestIDs mani (DecodeFails err) = ∅)
  ∧ (∀ steps, mani ≠ EmptyString →
       (∀ n, readManifestIDs mani (Decoded steps) !! n =
             if decide (0 ≤ n < Z.of_nat (length steps))
             then manifestStep.ID <$> steps !! Z.to_nat n
             else None)
       ∧ size (readManifestIDs mani (Decoded steps)) = length steps).
Proof.
  split; [reflexivity|].
  split; [intros err; unfold readManifestIDs; by case_decide|].
  split; [intros err; unfold readManifestIDs; by case_decide|].
  intros steps Hm. unfold readManifestIDs. rewrite decide_False by done.
  split.
  - intros n. rewrite manifestLoop_lookup, lookup_empty.
    rewrite Z.sub_0_r. by repeat case_decide.
  - rewrite manifestLoop_size; [by rewrite map_size_empty|].
    intros k _. apply lookup_empty.
Qed.

Lemma readManifestIDs_steps_witness :
  readManifestIDs "cloudbuild.yaml" (Decoded demoManifestSteps) !! 1
  = Some "slow"
  ∧ readManifestIDs "cloudbuild.yaml" (Decoded demoManifestSteps) !! 4 = None
  ∧ size (readManifestIDs "cloudbuild.yaml" (Decoded demoManifestSteps))
    = 4%nat.
Proof.
  destruct (readManifestIDs_steps "cloudbuild.yaml" (Decoded []))
    as (_ & _ & _ & H).
  destruct (H demoManifestSteps) as [Hl Hs]; [discriminate|].
  split; [rewrite Hl; reflexivity|].
  split; [rewrite Hl; reflexivity | exact Hs].
Defined.

(** X4. The name shown for a step: with a decoded manifest, an event of
    the step at index [i] is shown with the id the manifest gives to that
    step, and with the name of its container when the manifest gives the
    step no id or has no step at that index. A non-empty container name
    never gives an empty id. *)
Theorem stepId_of_manifest (mani : string) (steps : list manifestStep.t)
    (n : Z) (name : string) :
  mani ≠ EmptyString →
  (∀ s, 0 ≤ n → steps !! Z.to_nat n = Some s →
     stepId (readManifestIDs mani (Decoded steps)) n name
     = orDefault (manifestStep.ID s) name)
  ∧ (n < 0 ∨ Z.of_nat (length steps) ≤ n →
     stepId (readManifestIDs mani (Decoded steps)) n name = name)
  ∧ (name ≠ EmptyString →
     stepId (readManifestIDs mani (Decoded steps)) n name ≠ EmptyString).
Proof.
  intros Hm.
  pose proof (readManifestIDs_lookup_aux mani steps Hm) as Hl.
  split; [|split].
  - intros s Hn Hs. unfold stepId. rewrite Hl.
    destruct (decide (0 ≤ n < Z.of_nat (length steps))) as [_|Hout].
    + by rewrite Hs.
    + apply lookup_lt_Some in Hs. lia.
  - intros Hout. unfold stepId. rewrite Hl.
    destruct (decide (0 ≤ n < Z.of_nat (length steps))); [lia|].
    reflexivity.
  - intros Hname. unfold stepId. cbv zeta. by case_decide.
Qed.

Lemma stepId_of_manifest_witness :
  stepId (readManifestIDs "cloudbuild.yaml" (Decoded demoManifestSteps))
    2 "step_2" = "incomplete"
  ∧ stepId (readManifestIDs "cloudbuild.yaml" (Decoded demoManifestSteps))
      7 "step_7" = "step_7".
Proof.
  destruct (stepId_of_manifest "cloudbuild.yaml" demoManifestSteps 2 "step_2")
    as (Hin & _ & _); [discriminate|].
  destruct (stepId_of_manifest "cloudbuild.yaml" demoManifestSteps 7 "step_7")
    as (_ & Hout & _); [discriminate|].
  split.
  - rewrite (Hin (manifestStep.mk "incomplete" EmptyString));
      [reflexivity | lia | reflexivity].
  - apply Hout. right. simpl. lia.
Defined.

(** ** The steps made from events *)

Lemma HasPrefix_nonempty (s pre : string) :
  pre ≠ EmptyString → HasPrefix s pre = true → s ≠ EmptyString.
Proof. intros Hpre H ->. by destruct pre. Qed.

(** X5. An event is skipped exactly when the name of its container does
    not start with "step_" or its action is none of "start", "kill" and
    "die"; every other event gives a step. *)
Theorem stepOfEvent_skips (ids : gmap Z string) (e : dockerEvent.t) :
  stepOfEvent ids e = None ↔
  HasPrefix (eventName e) "step_" = false
  ∨ dockerEvent.Action e ∉ ["start"; "kill"; "die"].
Proof.
  unfold stepOfEvent. destruct (HasPrefix (eventName e) "step_"); simpl.
  - rewrite !not_elem_of_cons. split.
    + repeat case_decide; try discriminate. intros _. right.
      repeat split; try done. apply not_elem_of_nil.
    + intros [?|(H1 & H2 & H3 & _)]; [done|]. by rewrite !decide_False.
  - split; [by left | done].
Qed.

(** X6. What a step made from an event looks like. Its status is never
    the undefined one (so the loop of [run] cannot take it for the end of
    the updates) and its id is never empty. A "start" gives a Running
    step with the time of the event as start time and no end time; a
    "kill" gives a Cancelled step and a "die" a Done or Error step, with
    the time of the event as end time and no start time. The step is Done
    exactly when the exit code is 0 and Error exactly when it is not; a
    step that is not from a "die" has exit code 0. *)
Theorem stepOfEvent_shape (ids : gmap Z string) (e : dockerEvent.t)
    (s : gcbStep.t) :
  stepOfEvent ids e = Some s →
  gcbStep.status s ≠ gcbStatusUndef
  ∧ gcbStep.id s ≠ EmptyString
  ∧ gcbStep.num s = atoi (TrimPrefix (eventName e) "step_")
  ∧ (dockerEvent.Action e = "start" ↔ gcbStep.status s = gcbStatusRunning)
  ∧ (dockerEvent.Action e = "kill" ↔ gcbStep.status s = gcbStatusCancelled)
  ∧ (dockerEvent.Action e = "die" ↔
       gcbStep.status s = gcbStatusDone ∨ gcbStep.status s = gcbStatusError)
  ∧ (gcbStep.status s = gcbStatusRunning →
       gcbStep.startNano s = dockerEvent.TimeNano e ∧ gcbStep.endNano s = 0)
  ∧ (gcbStep.status s ≠ gcbStatusRunning →
       gcbStep.startNano s = 0 ∧ gcbStep.endNano s = dockerEvent.TimeNano e)
  ∧ (gcbStep.status s = gcbStatusDone → gcbStep.exit s = 0)
  ∧ (gcbStep.status s = gcbStatusError → gcbStep.exit s ≠ 0)
  ∧ (dockerEvent.Action e ≠ "die" → gcbStep.exit s = 0).
Proof.
  unfold stepOfEvent.
  destruct (HasPrefix (eventName e) "step_") eqn:Hpre; simpl; [|done].
  assert (Hid : ∀ n, stepId ids n (eventName e) ≠ EmptyString).
  { intros n. unfold stepId. cbv zeta. case_decide; [|done].
    eapply HasPrefix_nonempty; [|exact Hpre]. done. }
  destruct (decide (dockerEvent.Action e = "start")) as [Ha|Hs].
  { intros [= <-]. simpl. rewrite Ha. repeat split; try done.
    intros [?|?]; done. }
  destruct (decide (dockerEvent.Action e = "kill")) as [Ha|Hk].
  { intros [= <-]. simpl. rewrite Ha. repeat split; try done.
    intros [?|?]; done. }
  destruct (decide (dockerEvent.Action e = "die")) as [Ha|Hd]; [|done].
  intros [= <-]. simpl. rewrite Ha.
  destruct (decide (atoi (eventExitCode e) = 0)) as [H0|H0];
    repeat split; try done; try (by left); try (by right);
    intros [?|?]; done.
Qed.

Lemma stepOfEvent_shape_witness :
  stepOfEvent ∅ (demoEvent 7000 "die" "step_4" "137")
  = Some (gcbStep.mk gcbStatusError 4 "step_4" 137 0 7000)
  ∧ gcbStep.exit (gcbStep.mk gcbStatusError 4 "step_4" 137 0 7000) ≠ 0.
Proof.
  assert (H : stepOfEvent ∅ (demoEvent 7000 "die" "step_4" "137")
              = Some (gcbStep.mk gcbStatusError 4 "step_4" 137 0 7000))
    by (vm_compute; reflexivity).
  split; [exact H|].
  destruct (stepOfEvent_shape ∅ _ _ H) as (_ & _ & _ & _ & _ & _ & _ & _ & _ & He & _).
  by apply He.
Defined.

(** ** Numerals written by [strconv.Itoa] are read back by [atoi] *)



Lemma atoiDigits_string_of_uint (d : Decimal.uint) (acc : Z) :
  atoiDigits (NilEmpty.string_of_uint d) acc = (uintValue d acc, None).
Proof.
  revert acc. induction d; intros acc; simpl; [done|..].
  all: rewrite IHd; f_equal; f_equal; unfold byteOf; simpl; lia.
Qed.

Lemma uintValue_of_uint_acc (d : Decimal.uint) (acc : positive) :
  Z.pos (Pos.of_uint_acc d acc) = uintValue d (Z.pos acc).
Proof.
  revert acc. induction d; intros acc; simpl; [done|..];
    rewrite IHd; f_equal; lia.
Qed.

Lemma uintValue_of_uint (d : Decimal.uint) :
  Z.of_N (Pos.of_uint d) = uintValue d 0.
Proof.
  induction d; simpl; [done|done|..];
    rewrite uintValue_of_uint_acc; f_equal.
Qed.

Lemma uintValue_to_uint (p : positive) :
  uintValue (Pos.to_uint p) 0 = Z.pos p.
Proof.
  rewrite <- uintValue_of_uint, DecimalPos.Unsigned.of_to. done.
Qed.

Lemma uintValue_ge (d : Decimal.uint) (acc : Z) :
  0 ≤ acc → acc ≤ uintValue d acc.
Proof.
  revert acc. induction d; intros acc Hacc; simpl; [lia|..];
    (etrans; [|apply IHd]; lia).
Qed.

Lemma parseUintLoop_digit (c : ascii) (rest : string) (acc k : Z) :
  isDigit c = true → byteOf c - 48 = k →
  0 ≤ acc → 0 ≤ k → acc * 10 + k ≤ 2 ^ 63 →
  parseUintLoop (String c rest) acc = parseUintLoop rest (acc * 10 + k).
Proof.
  intros Hd Hk Hacc Hk0 Hle. simpl. rewrite Hd, Hk.
  change (2 ^ 63) with 9223372036854775808 in Hle.
  assert (Hc : (maxUint64 ÷ 10 + 1 <=? acc) = false).
  { apply Z.leb_gt. unfold maxUint64.
    change (2 ^ 64 - 1) with 18446744073709551615.
    change (18446744073709551615 ÷ 10 + 1) with 1844674407370955162. lia. }
  assert (Hm : (maxUint64 <? acc * 10 + k) = false).
  { apply Z.ltb_ge. unfold maxUint64.
    change (2 ^ 64 - 1) with 18446744073709551615. lia. }
  by rewrite Hc, Hm.
Qed.

Lemma parseUintLoop_string_of_uint (d : Decimal.uint) (acc : Z) :
  0 ≤ acc → uintValue d acc ≤ 2 ^ 63 →
  parseUintLoop (NilEmpty.string_of_uint d) acc = (uintValue d acc, None).
Proof.
  revert acc. induction d; intros acc Hacc Hle; simpl in Hle;
    cbn [NilEmpty.string_of_uint uintValue]; [done|..].
  all: erewrite parseUintLoop_digit;
         [apply IHd; [lia | exact Hle]
         | reflexivity | reflexivity | lia | lia
         | etrans; [|exact Hle]; apply uintValue_ge; lia].
Qed.

(** The text of [Itoa] starts with a digit when the number is not
    negative. *)
Lemma string_of_uint_nonnil (d : Decimal.uint) :
  d ≠ Decimal.Nil →
  NilZero.string_of_uint d = NilEmpty.string_of_uint d
  ∧ ∃ c rest, NilEmpty.string_of_uint d = String c rest
      ∧ c ≠ "-"%char ∧ c ≠ "+"%char.
Proof.
  intros Hd. split; [by destruct d|].
  destruct d; [done|..]; simpl; eexists _, _; (split; [reflexivity|]);
    split; discriminate.
Qed.

Lemma Atoi_unsigned (d : Decimal.uint) :
  d ≠ Decimal.Nil → uintValue d 0 < 2 ^ 63 →
  Atoi (NilEmpty.string_of_uint d) = (uintValue d 0, None).
Proof.
  intros Hd Hlt.
  destruct (string_of_uint_nonnil d Hd) as [_ (c & rest & Hs & Hm & Hp)].
  assert (Hfast : atoiDigits (String c rest) 0 = (uintValue d 0, None))
    by (rewrite <- Hs; apply atoiDigits_string_of_uint).
  assert (Hslow : parseUintLoop (String c rest) 0 = (uintValue d 0, None))
    by (rewrite <- Hs; apply parseUintLoop_string_of_uint; lia).
  rewrite Hs. unfold Atoi, ParseInt, ParseUint.
  rewrite !(bool_decide_eq_false_2 (c = "-"%char)) by done.
  rewrite !(bool_decide_eq_false_2 (c = "+"%char)) by done.
  cbn [orb andb negb]. rewrite Hfast, Hslow.
  destruct (_ && _); [done|].
  unfold intSize. change (2 ^ (64 - 1)) with (2 ^ 63).
  destruct (Z.leb_spec (2 ^ 63) (uintValue d 0)); [lia|done].
Qed.

Lemma Atoi_negated (d : Decimal.uint) :
  d ≠ Decimal.Nil → uintValue d 0 ≤ 2 ^ 63 →
  Atoi (String "-" (NilEmpty.string_of_uint d)) = (- uintValue d 0, None).
Proof.
  intros Hd Hle.
  destruct (string_of_uint_nonnil d Hd) as [_ (c & rest & Hs & _)].
  assert (Hfast : atoiDigits (String c rest) 0 = (uintValue d 0, None))
    by (rewrite <- Hs; apply atoiDigits_string_of_uint).
  assert (Hslow : parseUintLoop (String c rest) 0 = (uintValue d 0, None))
    by (rewrite <- Hs; apply parseUintLoop_string_of_uint; lia).
  rewrite Hs. unfold Atoi, ParseInt, ParseUint.
  rewrite !(bool_decide_eq_true_2 ("-"%char = "-"%char)) by done.
  rewrite !orb_true_r. cbn [orb andb negb String.length].
  rewrite Hfast, Hslow.
  destruct (_ && _).
  - destruct (Z.ltb_spec (Z.of_nat (S (String.length rest))) 1); [lia|done].
  - unfold intSize. change (2 ^ (64 - 1)) with (2 ^ 63).
    destruct (Z.ltb_spec (2 ^ 63) (uintValue d 0)); [lia|done].
Qed.

Lemma Atoi_of_Itoa (n : Z) :
  - 2 ^ 63 ≤ n < 2 ^ 63 → Atoi (Itoa n) = (n, None).
Proof.
  intros Hn.
  unfold Itoa. destruct n as [|p|p]; [reflexivity|..];
    unfold Z.to_int, NilZero.string_of_int.
  - destruct (string_of_uint_nonnil (Pos.to_uint p)
                (DecimalPos.Unsigned.to_uint_nonnil p)) as [-> _].
    rewrite Atoi_unsigned.
    + by rewrite uintValue_to_uint.
    + apply DecimalPos.Unsigned.to_uint_nonnil.
    + rewrite uintValue_to_uint. lia.
  - destruct (string_of_uint_nonnil (Pos.to_uint p)
                (DecimalPos.Unsigned.to_uint_nonnil p)) as [-> _].
    rewrite Atoi_negated.
    + by rewrite uintValue_to_uint.
    + apply DecimalPos.Unsigned.to_uint_nonnil.
    + rewrite uintValue_to_uint. lia.
Qed.

(** X7. Round trip of the decimal text: for every [n] that fits a 64-bit
    [int], [strconv.Atoi] reads the text of [strconv.Itoa] back as [n]
    without error, so [atoi] gives [n]. *)
Theorem atoi_Itoa (n : Z) :
  - 2 ^ 63 ≤ n < 2 ^ 63 →
  Atoi (Itoa n) = (n, None) ∧ atoi (Itoa n) = n.
Proof.
  intros Hn. pose proof (Atoi_of_Itoa n Hn) as H.
  split; [exact H|]. unfold atoi. by rewrite H.
Qed.

Lemma atoi_Itoa_witness :
  - 2 ^ 63 ≤ 9223372036854775807 < 2 ^ 63
  ∧ atoi (Itoa 9223372036854775807) = 9223372036854775807
  ∧ atoi (Itoa (-12)) = -12.
Proof.
  assert (H1 : - 2 ^ 63 ≤ 9223372036854775807 < 2 ^ 63) by lia.
  assert (H2 : - 2 ^ 63 ≤ -12 < 2 ^ 63) by lia.
  split; [exact H1|]. split.
  - apply (atoi_Itoa _ H1).
  - apply (atoi_Itoa _ H2).
Defined.

Lemma cutPrefix_app (pre rest : string) :
  cutPrefix (pre +:+ rest) pre = Some rest.
Proof.
  induction pre as [|c pre IH]; [by destruct rest|].
  change (String c pre +:+ rest) with (String c (pre +:+ rest)).
  simpl. by rewrite bool_decide_eq_true_2.
Qed.




(** ** [splitUserPass] *)

Lemma index_colon_cons (b : ascii) (s : string) :
  index 0 ":" (String b s) =
    if decide (b = ":"%char) then Some 0%nat
    else S <$> index 0 ":" s.
Proof.
  cbn [index String.prefix]. destruct (ascii_dec ":" b) as [<-|Hne].
  - rewrite decide_True by done. by destruct s.
  - rewrite decide_False by congruence. by destruct (index 0 ":" s).
Qed.

Lemma substring_0_all (s : string) : substring 0 (String.length s) s = s.
Proof. induction s as [|c s IH]; simpl; [done|by rewrite IH]. Qed.

(** Where [strings.Index] finds the first colon, and when it finds none. *)
Lemma index_colon_spec (s : string) :
  match index 0 ":" s with
  | Some m =>
      ∃ u p, s = u +:+ ":" +:+ p
        ∧ String.length u = m
        ∧ index 0 ":" u = None
        ∧ substring 0 m s = u
        ∧ substring (S m) (String.length s - S m) s = p
  | None => ∀ u p, s ≠ u +:+ ":" +:+ p
  end.
Proof.
  induction s as [|b s IH].
  - simpl. intros [|c u] p; discriminate.
  - rewrite index_colon_cons. case_decide as Hb.
    + subst b. exists EmptyString, s. repeat split.
      simpl. rewrite Nat.sub_0_r. apply substring_0_all.
    + destruct (index 0 ":" s) as [m|]; simpl.
      * destruct IH as (u & p & -> & Hlen & Hnone & Hu & Hp).
        exists (String b u), p. repeat split.
        -- simpl. by rewrite Hlen.
        -- rewrite index_colon_cons, decide_False by done. by rewrite Hnone.
        -- by rewrite Hu.
        -- exact Hp.
      * intros [|c u] p.
        -- intros [= -> _]. done.
        -- change (String c u +:+ ":" +:+ p)
             with (String c (u +:+ ":" +:+ p)).
           intros [= _ Hs]. by eapply IH.
Qed.

Lemma index_colon_app (u p : string) :
  index 0 ":" u = None →
  index 0 ":" (u +:+ ":" +:+ p) = Some (String.length u).
Proof.
  induction u as [|c u IH]; intros Hnone.
  - change (EmptyString +:+ ":" +:+ p) with (String ":" p).
    by rewrite index_colon_cons, decide_True.
  - change (String c u +:+ ":" +:+ p) with (String c (u +:+ ":" +:+ p)).
    rewrite index_colon_cons in Hnone |- *.
    case_decide; [done|].
    destruct (index 0 ":" u); [done|]. by rewrite IH.
Qed.

(** X9. [splitUserPass] splits at the first colon and loses nothing. For
    every text, either the text holds no colon, the user is empty and the
    password is the whole text, or the text is the user, a colon and the
    password, and the user holds no colon. The other way round: a user
    without colon and a password joined by a colon are split into that
    user and that password, also when the password holds colons. *)
Theorem splitUserPass_round_trip (userPass : string) :
  ((Index userPass ":" = -1
    ∧ (∀ u p, userPass ≠ u +:+ ":" +:+ p)
    ∧ splitUserPass userPass = (EmptyString, userPass))
   ∨ (userPass
      = fst (splitUserPass userPass) +:+ ":" +:+ snd (splitUserPass userPass)
      ∧ Index (fst (splitUserPass userPass)) ":" = -1))
  ∧ (∀ user pass, Index user ":" = -1 →
       splitUserPass (user +:+ ":" +:+ pass) = (user, pass)).
Proof.
  split.
  - pose proof (index_colon_spec userPass) as Hspec.
    unfold splitUserPass, Index.
    destruct (index 0 ":" userPass) as [m|].
    + right. destruct Hspec as (u & p & Hs & Hlen & Hnone & Hu & Hp).
      rewrite decide_False by lia. simpl.
      replace (Z.to_nat (Z.of_nat m)) with m by lia.
      replace (Z.to_nat (Z.of_nat m + 1)) with (S m) by lia.
      rewrite Hu, Hp, Hnone. done.
    + left. by rewrite decide_True.
  - intros user pass Hnone. unfold Index in Hnone.
    destruct (index 0 ":" user) eqn:Hu; [lia|].
    pose proof (index_colon_spec (user +:+ ":" +:+ pass)) as Hspec.
    unfold splitUserPass, Index.
    rewrite (index_colon_app user pass Hu) in Hspec |- *.
    destruct Hspec as (u & p & Hs & Hlen & _ & Hsu & Hsp).
    rewrite decide_False by lia.
    replace (Z.to_nat (Z.of_nat (String.length user)))
      with (String.length user) by lia.
    replace (Z.to_nat (Z.of_nat (String.length user) + 1))
      with (S (String.length user)) by lia.
    rewrite Hsu, Hsp.
    assert (Hup : u = user ∧ p = pass); [|by destruct Hup as [-> ->]].
    clear Hsu Hsp Hu Hnone. revert u Hs Hlen.
    induction user as [|c user IH]; intros u Hs Hlen.
    + destruct u; [|done].
      change (EmptyString +:+ ":" +:+ pass) with (String ":" pass) in Hs.
      change (EmptyString +:+ ":" +:+ p) with (String ":" p) in Hs.
      by inversion Hs.
    + destruct u as [|c' u]; [done|].
      change (String c user +:+ ":" +:+ pass)
        with (String c (user +:+ ":" +:+ pass)) in Hs.
      change (String c' u +:+ ":" +:+ p)
        with (String c' (u +:+ ":" +:+ p)) in Hs.
      inversion Hs; subst. simpl in Hlen.
      destruct (IH u) as [-> ->]; [done|lia|done].
Qed.

Lemma splitUserPass_round_trip_witness :
  Index "gcb-bot" ":" = -1
  ∧ splitUserPass ("gcb-bot" +:+ ":" +:+ "s3:cret") = ("gcb-bot", "s3:cret").
Proof.
  assert (H : Index "gcb-bot" ":" = -1) by reflexivity.
  split; [exact H|].
  destruct (splitUserPass_round_trip EmptyString) as [_ Hjoin].
  apply (Hjoin "gcb-bot" "s3:cret" H).
Defined.

(** ** Exit codes through wrapped errors *)

Lemma asCode_wrapAll (msgs : list string) (err : error) :
  asCode (wrapAll msgs err) = asCode err.
Proof. induction msgs as [|m msgs IH]; simpl; [done|exact IH]. Qed.

(** X10. [exitCode] finds a code through any number of [%w] wrappings and
    takes the outermost one: an error made by [exit] with [code] and then
    wrapped any number of times gives [code], whatever error [exit] was
    given, also one that carries another code; an error that carries no
    code gives 1 however it is wrapped. *)
Theorem exitCode_wrapped (msgs : list string) (code : Z) (err : error) :
  exitCode (Some (wrapAll msgs (exit code err))) = code
  ∧ (asCode err = None → exitCode (Some (wrapAll msgs err)) = 1)
  ∧ (∀ msg, exitCode (Some (wrapAll msgs (errorString msg))) = 1).
Proof.
  unfold exitCode. rewrite !asCode_wrapAll. split; [done|]. split.
  - by intros ->.
  - intros msg. by rewrite asCode_wrapAll.
Qed.

Lemma exitCode_wrapped_witness :
  asCode (errorString "unexpected EOF") = None
  ∧ exitCode (Some (wrapAll ["decoding event: "]
                      (errorString "unexpected EOF"))) = 1
  ∧ exitCode (Some (wrapAll ["starting: "; "docker: "]
                      (exit 3 (exit 7 (errorString "404"))))) = 3.
Proof.
  assert (H : asCode (errorString "unexpected EOF") = None) by reflexivity.
  split; [exact H|]. split.
  - destruct (exitCode_wrapped ["decoding event: "] 0
                (errorString "unexpected EOF")) as (_ & Hnone & _).
    apply Hnone, H.
  - destruct (exitCode_wrapped ["starting: "; "docker: "] 3
                (exit 7 (errorString "404"))) as (Hcode & _).
    exact Hcode.
Defined.

(** ** The request of [dockerUpdates] *)

Lemma cutPrefix_Some (s pre rest : string) :
  cutPrefix s pre = Some rest → s = pre +:+ rest.
Proof.
  revert s. induction pre as [|c pre IH]; intros s.
  - destruct s; intros [= <-]; reflexivity.
  - destruct s as [|b s]; simpl; [done|].
    case_bool_decide as Hcb; [|done]. subst b.
    intros H%IH. rewrite H. reflexivity.
Qed.

(** X11. Where [dockerUpdates] connects. For a docker host that starts
    with "unix:///" the client dials the unix socket whose path is the
    host without "unix://", a path that starts with "/", and the request
    goes to "http://docker/events?type=container&since=10"; for every
    other host the default client is used and the request goes to the
    host followed by "/events?type=container&since=10". With the docker
    host that [run] takes when DOCKER_HOST is empty or not set, the
    socket is /var/run/docker.sock. *)
Theorem dockerRequest_socket (dockerHost : string) :
  (HasPrefix dockerHost "unix:///" = true →
     ∃ path, dockerRequest dockerHost
             = (Some path, "http://docker/events?type=container&since=10")
       ∧ dockerHost = "unix://" +:+ path
       ∧ HasPrefix path "/" = true)
  ∧ (HasPrefix dockerHost "unix:///" = false →
     dockerRequest dockerHost
     = (None, dockerHost +:+ "/events?type=container&since=10"))
  ∧ (∀ env build, runConfig env = inr build →
       Getenv env "DOCKER_HOST" = EmptyString →
       dockerRequest (buildContext.Docker build)
       = (Some "/var/run/docker.sock",
          "http://docker/events?type=container&since=10")).
Proof.
  split; [|split].
  - intros Hpre. unfold dockerRequest. rewrite Hpre.
    unfold HasPrefix in Hpre.
    destruct (cutPrefix dockerHost "unix:///") as [rest|] eqn:Hcut; [|done].
    apply cutPrefix_Some in Hcut. subst dockerHost.
    exists (String "/" rest).
    change ("unix:///" +:+ rest) with ("unix://" +:+ String "/" rest).
    unfold TrimPrefix. rewrite cutPrefix_app. repeat split.
    unfold HasPrefix. simpl. by destruct rest.
  - intros Hpre. unfold dockerRequest. by rewrite Hpre.
  - intros env build Hb Hempty.
    assert (Hd : buildContext.Docker build = "unix:///var/run/docker.sock").
    { revert Hb. unfold runConfig, readEnv. simpl.
      repeat case_decide; try discriminate. intros [= <-]. simpl.
      by rewrite Hempty. }
    by rewrite Hd.
Qed.

Lemma dockerRequest_socket_witness :
  HasPrefix "unix:///tmp/docker.sock" "unix:///" = true
  ∧ dockerRequest "unix:///tmp/docker.sock"
    = (Some "/tmp/docker.sock",
       "http://docker/events?type=container&since=10")
  ∧ dockerRequest "http://localhost:2375"
    = (None, "http://localhost:2375/events?type=container&since=10").
Proof.
  assert (H : HasPrefix "unix:///tmp/docker.sock" "unix:///" = true)
    by reflexivity.
  split; [exact H|].
  destruct (dockerRequest_socket "unix:///tmp/docker.sock") as (Hs & _ & _).
  destruct (dockerRequest_socket "http://localhost:2375") as (_ & Hn & _).
  destruct (Hs H) as (path & -> & Hhost & _).
  split.
  - f_equal. f_equal. by inversion Hhost.
  - by apply Hn.
Defined.

(** ** Durations *)

Lemma wrap64_in_range (z : Z) : - 2 ^ 63 ≤ z < 2 ^ 63 → wrap64 z = z.
Proof.
  intros Hz. unfold wrap64.
  assert (H64 : 2 ^ 64 = 2 * 2 ^ 63) by reflexivity.
  rewrite Z.mod_small by lia. lia.
Qed.

(** X12. [fmtDuration] shows the two largest units, and the second one
    stays below one of the first: for a duration [d] that is not
    negative, up to a minute it shows the whole seconds of [d] modulo a
    minute (so 0 to 59 seconds, and "0s" for exactly one minute); above a
    minute and up to an hour, 1 to 60 minutes and 0 to 59 seconds; above
    an hour and up to a day, 1 to 24 hours and 0 to 59 minutes; above a
    day and up to a year of 365 days, 1 to 365 days and 0 to 23 hours;
    above a year, at least one year and 0 to 364 days. *)
Theorem fmtDuration_units (d : Z) :
  (0 ≤ d ≤ Minute →
     fmtDuration d = Itoa (d `mod` Minute / Second) +:+ "s"
     ∧ 0 ≤ d `mod` Minute / Second < 60
     ∧ (d < Minute → d `mod` Minute / Second = d / Second)
     ∧ (d = Minute → fmtDuration d = "0s"))
  ∧ (Minute < d ≤ Hour →
     fmtDuration d
     = Itoa (d / Minute) +:+ "m" +:+ Itoa (d `mod` Minute / Second) +:+ "s"
     ∧ 1 ≤ d / Minute ≤ 60 ∧ 0 ≤ d `mod` Minute / Second < 60)
  ∧ (Hour < d ≤ Day →
     fmtDuration d
     = Itoa (d / Hour) +:+ "h" +:+ Itoa (d `mod` Hour / Minute) +:+ "m"
     ∧ 1 ≤ d / Hour ≤ 24 ∧ 0 ≤ d `mod` Hour / Minute < 60)
  ∧ (Day < d ≤ Year →
     fmtDuration d
     = Itoa (d / Day) +:+ "d" +:+ Itoa (d `mod` Day / Hour) +:+ "h"
     ∧ 1 ≤ d / Day ≤ 365 ∧ 0 ≤ d `mod` Day / Hour < 24)
  ∧ (Year < d →
     fmtDuration d
     = Itoa (d / Year) +:+ "y" +:+ Itoa (d `mod` Year / Day) +:+ "d"
     ∧ 1 ≤ d / Year ∧ 0 ≤ d `mod` Year / Day < 365).
Proof.
  assert (Hq : ∀ a b, 0 ≤ a → 0 < b → a ÷ b = a / b)
    by (intros; apply Z.quot_div_nonneg; lia).
  assert (Hr : ∀ a b, 0 ≤ a → 0 < b → Z.rem a b = a `mod` b)
    by (intros; apply Z.rem_mod_nonneg; lia).
  unfold fmtDuration.
  change Year with 31536000000000000. change Day with 86400000000000.
  change Hour with 3600000000000. change Minute with 60000000000.
  change Second with 1000000000.
  split; [|split; [|split; [|split]]]; intros Hd.
  all: repeat match goal with
       | |- context [?a <? ?b] => destruct (Z.ltb_spec a b); try lia
       end.
  all: rewrite ?Hr by lia.
  all: rewrite ?Hq by (Z.div_mod_to_equations; lia).
  all: split; [reflexivity|]; try (Z.div_mod_to_equations; lia).
  split; [Z.div_mod_to_equations; lia|].
  split; [intros; Z.div_mod_to_equations; lia|].
  intros ->. reflexivity.
Qed.

Lemma fmtDuration_units_witness :
  0 ≤ 11 * Second ≤ Minute
  ∧ fmtDuration (11 * Second) = "11s"
  ∧ Hour < 3 * Hour + 5 * Minute ≤ Day
  ∧ fmtDuration (3 * Hour + 5 * Minute) = "3h5m".
Proof.
  assert (H1 : 0 ≤ 11 * Second ≤ Minute) by (vm_compute; split; discriminate).
  assert (H2 : Hour < 3 * Hour + 5 * Minute ≤ Day)
    by (vm_compute; split; [reflexivity | discriminate]).
  destruct (fmtDuration_units (11 * Second)) as (Hs & _).
  destruct (fmtDuration_units (3 * Hour + 5 * Minute)) as (_ & _ & Hh & _).
  split; [exact H1|]. split; [|split; [exact H2|]].
  - destruct (Hs H1) as (-> & _). reflexivity.
  - destruct (Hh H2) as (-> & _). reflexivity.
Defined.

Lemma durationSuffix_elapsed (nowNano : Z) (s : gcbStep.t) :
  durationSuffix nowNano s =
    if 10 * Second <? elapsed nowNano s
    then " " +:+ fmtDuration (elapsed nowNano s) else EmptyString.
Proof. reflexivity. Qed.

(** X13. When the summary shows a duration. The elapsed time of a step
    runs from its start time to its end time, or to the clock when it has
    no end time; when all of these fit 64 bits and so does their
    difference, it is that difference. The summary shows nothing after
    the id exactly when the elapsed time is at most ten seconds, and
    otherwise a space and the elapsed time as [fmtDuration] writes it. *)
Theorem duration_shown_after_ten_seconds (nowNano : Z) (s : gcbStep.t) :
  (gcbStep.endNano s = 0 →
     - 2 ^ 63 ≤ nowNano - gcbStep.startNano s < 2 ^ 63 →
     elapsed nowNano s = nowNano - gcbStep.startNano s)
  ∧ (gcbStep.endNano s ≠ 0 →
     - 2 ^ 63 ≤ gcbStep.endNano s - gcbStep.startNano s < 2 ^ 63 →
     elapsed nowNano s = gcbStep.endNano s - gcbStep.startNano s)
  ∧ (durationSuffix nowNano s = EmptyString ↔
     elapsed nowNano s ≤ 10 * Second)
  ∧ (10 * Second < elapsed nowNano s →
     durationSuffix nowNano s = " " +:+ fmtDuration (elapsed nowNano s)).
Proof.
  split; [|split; [|split]].
  - intros H0 Hr. unfold elapsed. rewrite decide_True by done.
    by apply wrap64_in_range.
  - intros H0 Hr. unfold elapsed. rewrite decide_False by done.
    by apply wrap64_in_range.
  - rewrite durationSuffix_elapsed.
    destruct (Z.ltb_spec (10 * Second) (elapsed nowNano s)); split.
    + discriminate.
    + lia.
    + done.
    + done.
  - intros Hlt. rewrite durationSuffix_elapsed.
    destruct (Z.ltb_spec (10 * Second) (elapsed nowNano s)); [done|lia].
Qed.

Lemma duration_shown_after_ten_seconds_witness :
  durationSuffix 11000000050
    (gcbStep.mk gcbStatusRunning 1 "step_1" 0 50 0) = " 11s"
  ∧ durationSuffix 10000000050
      (gcbStep.mk gcbStatusRunning 1 "step_1" 0 50 0) = EmptyString.
Proof.
  destruct (duration_shown_after_ten_seconds 11000000050
              (gcbStep.mk gcbStatusRunning 1 "step_1" 0 50 0))
    as (_ & _ & _ & Hshown).
  destruct (duration_shown_after_ten_seconds 10000000050
              (gcbStep.mk gcbStatusRunning 1 "step_1" 0 50 0))
    as (_ & _ & Hnone & _).
  split.
  - rewrite Hshown; [reflexivity | vm_compute; reflexivity].
  - apply Hnone. vm_compute. discriminate.
Defined.

(** ** The summary *)

Lemma durationSuffix_ended (now1 now2 : Z) (s : gcbStep.t) :
  gcbStep.endNano s ≠ 0 → durationSuffix now1 s = durationSuffix now2 s.
Proof. intros He. unfold durationSuffix. by rewrite !decide_False. Qed.

Lemma describe_ended (now1 now2 : Z) (stPrev : gcbStatus)
    (st : list gcbStep.t) :
  Forall (λ s, gcbStep.endNano s ≠ 0) st →
  describe now1 stPrev st = describe now2 stPrev st.
Proof.
  intros Hall. revert stPrev.
  induction Hall as [|s st Hs Hall IH]; intros stPrev; simpl; [done|].
  by rewrite (durationSuffix_ended now1 now2 s Hs), IH.
Qed.

(** X14. Once every step of the map has an end time, the update does not
    depend on the clock: [gcb2gh] gives the same update at any two
    times. *)
Theorem update_fixed_once_ended (url : urlPackage) (build : buildContext.t)
    (steps : gmap Z gcbStep.t) (numSteps now1 now2 : Z) :
  map_Forall (λ _ s, gcbStep.endNano s ≠ 0) steps →
  gcb2gh url build steps numSteps now1 = gcb2gh url build steps numSteps now2.
Proof.
  intros Hended.
  assert (Hall : Forall (λ s, gcbStep.endNano s ≠ 0) (sortedSteps steps)).
  { apply Forall_forall. intros s Hs.
    unfold sortedSteps in Hs. rewrite sortSlice_perm in Hs.
    apply elem_of_stepValues in Hs as [n Hn]. by apply (Hended n s). }
  unfold gcb2gh.
  by rewrite (describe_ended now1 now2 gcbStatusUndef _ Hall).
Qed.

Lemma update_fixed_once_ended_witness :
  map_Forall (λ _ s, gcbStep.endNano s ≠ 0) (demoTestSteps ∅ 9)
  ∧ gcb2gh demoUrl demoBuild (demoTestSteps ∅ 9) 0 1010400000000
    = gcb2gh demoUrl demoBuild (demoTestSteps ∅ 9) 0 2000000000000.
Proof.
  assert (H : map_Forall (λ _ s, gcbStep.endNano s ≠ 0) (demoTestSteps ∅ 9)).
  { assert (Hm : demoTestSteps ∅ 9 =
      <[0 := gcbStep.mk gcbStatusDone 0 "step_0" 0 1000001000000 1000005000000]>
      (<[1 := gcbStep.mk gcbStatusDone 1 "step_1" 0 1000050000000 1010200000000]>
      (<[2 := gcbStep.mk gcbStatusCancelled 2 "step_2" 0 1000055000000 1010300000000]>
      (<[3 := gcbStep.mk gcbStatusError 3 "step_3" 1 1000080000000 1010300000000]> ∅))))
      by (vm_compute; reflexivity).
    rewrite Hm.
    repeat (apply map_Forall_insert_2; [discriminate|]).
    apply map_Forall_empty. }
  split; [exact H|].
  apply (update_fixed_once_ended demoUrl demoBuild _ 0 _ _ H).
Defined.

Lemma string_app_assoc (a b c : string) :
  (a +:+ b) +:+ c = a +:+ (b +:+ c).
Proof.
  induction a as [|x a IH]; [done|].
  change ((String x a +:+ b) +:+ c) with (String x ((a +:+ b) +:+ c)).
  by rewrite IH.
Qed.

Lemma string_app_empty_l (s : string) : EmptyString +:+ s = s.
Proof. reflexivity. Qed.

(** The steps of a group after its first one. *)
Lemma describe_same_status (nowNano : Z) (c : gcbStatus)
    (g tail : list gcbStep.t) :
  Forall (λ s, gcbStep.status s = c) g →
  describe nowNano c (g ++ tail) =
    foldr (λ s acc, ", " +:+ stepText nowNano s +:+ acc) EmptyString g
    +:+ describe nowNano c tail.
Proof.
  induction 1 as [|s g Hs Hall IH]; [done|].
  simpl. rewrite Hs, IH. unfold groupPrefix, stepText.
  rewrite decide_False by (intros H; by apply H).
  by rewrite !string_app_assoc.
Qed.

Lemma joinWith_stepTexts (nowNano : Z) (s : gcbStep.t) (g : list gcbStep.t) :
  joinWith ", " (stepText nowNano <$> s :: g) =
    stepText nowNano s
    +:+ foldr (λ s acc, ", " +:+ stepText nowNano s +:+ acc) EmptyString g.
Proof.
  revert s. induction g as [|s' g IH]; intros s.
  - simpl. by rewrite string_app_empty_r.
  - change (joinWith ", " (stepText nowNano <$> s :: s' :: g))
      with (stepText nowNano s +:+ ", "
            +:+ joinWith ", " (stepText nowNano <$> s' :: g)).
    rewrite IH. done.
Qed.

Lemma describe_grouped (nowNano : Z) (prev : gcbStatus)
    (groups : list (gcbStatus * list gcbStep.t)) :
  groups ≠ [] → grouped prev groups →
  describe nowNano prev (concat groups.*2) =
    (if decide (prev ≠ gcbStatusUndef) then "; " else EmptyString)
    +:+ joinWith "; " (groupText nowNano <$> groups).
Proof.
  revert prev. induction groups as [|[c g] rest IH]; intros prev Hne; [done|].
  intros (Hc & Hprev & Hg & Hall & Hrest).
  destruct g as [|s g]; [done|].
  apply Forall_cons in Hall as [Hs Hall].
  change (concat ((c, s :: g) :: rest).*2)
    with (s :: (g ++ concat rest.*2)).
  cbn [describe]. rewrite Hs, (describe_same_status _ _ _ _ Hall).
  assert (Hgt : groupText nowNano (c, s :: g) =
    statusString c +:+ ": " +:+ stepText nowNano s
    +:+ foldr (λ s acc, ", " +:+ stepText nowNano s +:+ acc) EmptyString g).
  { unfold groupText. cbn [fst snd]. by rewrite joinWith_stepTexts. }
  unfold groupPrefix. rewrite (decide_True (P := c ≠ prev)) by done.
  destruct rest as [|r rest].
  - cbn [fmap list_fmap concat describe joinWith]. rewrite Hgt.
    unfold stepText. rewrite !string_app_assoc, string_app_empty_r. done.
  - rewrite (IH c) by done. rewrite (decide_True (P := c ≠ gcbStatusUndef)) by done.
    change (joinWith "; " (groupText nowNano <$> (c, s :: g) :: r :: rest))
      with (groupText nowNano (c, s :: g) +:+ "; "
            +:+ joinWith "; " (groupText nowNano <$> r :: rest)).
    rewrite Hgt. unfold stepText. by rewrite !string_app_assoc.
Qed.

(** X15. The form of the summary. For a slice cut into groups of steps
    with one status each, no group having the status of the group before
    it and no status being the undefined one, the summary is the texts of
    the groups joined by "; ", where the text of a group is the label of
    its status, ": ", and the texts of its steps joined by ", ", and the
    text of a step is its id followed by its duration when one is
    shown. *)
Theorem describe_groups (nowNano : Z)
    (groups : list (gcbStatus * list gcbStep.t)) :
  grouped gcbStatusUndef groups →
  describe nowNano gcbStatusUndef (concat groups.*2)
  = joinWith "; " (groupText nowNano <$> groups).
Proof.
  intros Hg. destruct groups as [|g groups]; [done|].
  rewrite describe_grouped by done. by rewrite decide_False by (intros H; by apply H).
Qed.

Lemma describe_groups_witness :
  grouped gcbStatusUndef demoGroups
  ∧ describe 1010400000000 gcbStatusUndef (concat demoGroups.*2)
    = "Error: step_3 10s; Cancelled: step_2 10s; Done: step_1 10s, step_0".
Proof.
  assert (H : grouped gcbStatusUndef demoGroups).
  { simpl. repeat split; try discriminate; repeat constructor. }
  split; [exact H|].
  rewrite (describe_groups _ _ H). vm_compute. reflexivity.
Defined.

(** ** The coarse state and the steps of the map *)

(** The first step of the sorted slice has the least status, whatever the
    keys of the map are. *)
Lemma sortSlice_head_min (l : list gcbStep.t) (h : gcbStep.t)
    (t : list gcbStep.t) :
  sortSlice l = h :: t →
  Forall (λ y, statusInt (gcbStep.status h) ≤ statusInt (gcbStep.status y)) l.
Proof.
  revert h t. induction l as [|x l IH]; intros h t; [done|].
  simpl. destruct (sortSlice l) as [|y t'] eqn:Hsl.
  - assert (l = []) as ->.
    { apply Permutation_nil. by rewrite <- Hsl, sortSlice_perm. }
    simpl. intros [= <- <-]. repeat constructor. lia.
  - specialize (IH y t' eq_refl). simpl.
    destruct (less x y) eqn:Hless.
    + intros [= <- <-]. apply less_iff in Hless.
      assert (statusInt (gcbStep.status x) ≤ statusInt (gcbStep.status y))
        by (unfold lexBefore in Hless; lia).
      constructor; [lia|].
      eapply Forall_impl; [exact IH|]. simpl. intros; lia.
    + intros [= <- <-].
      assert (statusInt (gcbStep.status y) ≤ statusInt (gcbStep.status x)).
      { destruct (Z.le_gt_cases (statusInt (gcbStep.status y))
                    (statusInt (gcbStep.status x))) as [|Hlt]; [done|].
        assert (less x y = true); [|congruence].
        apply less_iff. unfold lexBefore. lia. }
      by constructor.
Qed.

Lemma sortedSteps_head (steps : gmap Z gcbStep.t) (h : gcbStep.t)
    (t : list gcbStep.t) :
  sortedSteps steps = h :: t →
  (∃ n, steps !! n = Some h)
  ∧ ∀ n s, steps !! n = Some s →
      statusInt (gcbStep.status h) ≤ statusInt (gcbStep.status s).
Proof.
  intros Hs. split.
  - apply elem_of_stepValues. unfold sortedSteps in Hs.
    rewrite <- sortSlice_perm, Hs. left.
  - intros n s Hn. apply sortSlice_head_min in Hs.
    rewrite Forall_forall in Hs. apply Hs, elem_of_stepValues. eauto.
Qed.

Lemma statusInt_defined (c : gcbStatus) :
  c ≠ gcbStatusUndef → 1 ≤ statusInt c ≤ 4.
Proof. destruct c; simpl; intros; try done; lia. Qed.

(** X16. A failure shows first. For every non-empty step map without
    undefined status, the state of the update is "error" exactly when
    some step of the map is Error; and then the first step of the sorted
    slice is an Error step of the map, the link of the update points at
    the number of that step, and the summary starts with "Error: "
    followed by the id of that step. *)
Theorem error_shows_first (url : urlPackage) (build : buildContext.t)
    (steps : gmap Z gcbStep.t) (numSteps nowNano : Z) :
  defined steps → steps ≠ ∅ →
  ∃ gh s0,
    gcb2gh url build steps numSteps nowNano = Some gh
    ∧ head (sortedSteps steps) = Some s0
    ∧ (ghStatusUpdate.State gh = ghCommitStateError ↔
       ∃ n s, steps !! n = Some s ∧ gcbStep.status s = gcbStatusError)
    ∧ (ghStatusUpdate.State gh = ghCommitStateError →
       gcbStep.status s0 = gcbStatusError
       ∧ (∃ n, steps !! n = Some s0)
       ∧ ghStatusUpdate.TargetURL gh = targetURL url build (gcbStep.num s0)
       ∧ ∃ tail, describe nowNano gcbStatusUndef (sortedSteps steps)
                 = "Error: " +:+ gcbStep.id s0 +:+ tail).
Proof.
  intros Hd Hne.
  destruct (gcb2gh_nonempty url build steps numSteps nowNano Hne)
    as (s0 & rest & E & Hgh).
  destruct (sortedSteps_head steps s0 rest E) as [[n0 Hn0] Hmin].
  eexists _, s0. split; [exact Hgh|]. split; [by rewrite E|]. simpl.
  assert (Hstate : commitStateOf (gcbStep.status s0) numSteps
                     (Z.of_nat (size steps)) = ghCommitStateError
                   ↔ gcbStep.status s0 = gcbStatusError).
  { destruct (gcbStep.status s0); simpl; try done.
    destruct (_ || _); done. }
  split; [|].
  - rewrite Hstate. split.
    + intros He. eauto.
    + intros (n & s & Hn & Hs).
      pose proof (Hmin n s Hn) as Hle. rewrite Hs in Hle. simpl in Hle.
      pose proof (statusInt_defined _ (Hd n0 s0 Hn0)) as Hr.
      apply statusInt_inj. simpl. lia.
  - rewrite Hstate. intros He. split; [done|]. split; [eauto|].
    split; [done|]. rewrite E. simpl. rewrite He.
    eexists. unfold groupPrefix. simpl.
    rewrite !string_app_assoc. reflexivity.
Qed.

Lemma error_shows_first_witness :
  defined (apply demoSteps demoFailure)
  ∧ apply demoSteps demoFailure ≠ ∅
  ∧ ghStatusUpdate.State <$>
      gcb2gh demoUrl demoBuild (apply demoSteps demoFailure) 0 20000
    = Some ghCommitStateError.
Proof.
  assert (Hd : defined (apply demoSteps demoFailure))
    by (apply apply_defined, demoSteps_defined).
  assert (Hne : apply demoSteps demoFailure ≠ ∅) by has_entry 3.
  split; [exact Hd|]. split; [exact Hne|].
  destruct (error_shows_first demoUrl demoBuild _ 0 20000 Hd Hne)
    as (gh & s0 & -> & _ & Hiff & _).
  simpl. f_equal. apply Hiff. exists 3, (gcbStep.mk gcbStatusError 3 "step_3" 1 80 10300).
  split; vm_compute; reflexivity.
Defined.

(** X17. When the update says "success" or "pending". For every
    non-empty step map without undefined status: the state is "success"
    exactly when every step of the map is Done and the expected number
    of steps is 0 or the number of steps of the map; it is "pending"
    exactly when no step is Error or Cancelled and either some step is
    Running, or the expected number of steps is neither 0 nor the number
    of steps of the map. *)
Theorem success_needs_all_done (url : urlPackage) (build : buildContext.t)
    (steps : gmap Z gcbStep.t) (numSteps nowNano : Z) :
  defined steps → steps ≠ ∅ →
  ∃ gh,
    gcb2gh url build steps numSteps nowNano = Some gh
    ∧ (ghStatusUpdate.State gh = ghCommitStateSuccess ↔
       (∀ n s, steps !! n = Some s → gcbStep.status s = gcbStatusDone)
       ∧ (numSteps = 0 ∨ Z.of_nat (size steps) = numSteps))
    ∧ (ghStatusUpdate.State gh = ghCommitStatePending ↔
       (∀ n s, steps !! n = Some s →
          gcbStep.status s = gcbStatusRunning
          ∨ gcbStep.status s = gcbStatusDone)
       ∧ ((∃ n s, steps !! n = Some s
             ∧ gcbStep.status s = gcbStatusRunning)
          ∨ (numSteps ≠ 0 ∧ Z.of_nat (size steps) ≠ numSteps))).
Proof.
  intros Hd Hne.
  destruct (gcb2gh_nonempty url build steps numSteps nowNano Hne)
    as (s0 & rest & E & Hgh).
  destruct (sortedSteps_head steps s0 rest E) as [[n0 Hn0] Hmin].
  eexists. split; [exact Hgh|]. cbn [ghStatusUpdate.State].
  assert (Hcount : ((numSteps =? 0) || (Z.of_nat (size steps) =? numSteps))
                   = true
                   ↔ numSteps = 0 ∨ Z.of_nat (size steps) = numSteps).
  { rewrite orb_true_iff, !Z.eqb_eq. done. }
  assert (Hall : ∀ c, gcbStep.status s0 = c →
            ∀ n s, steps !! n = Some s →
              statusInt c ≤ statusInt (gcbStep.status s) ≤ 4).
  { intros c <- n s Hn. split; [by eapply Hmin|].
    apply statusInt_defined. by eapply Hd. }
  split.
  - split.
    + intros Hs. destruct (gcbStep.status s0) eqn:Hs0;
        cbn [commitStateOf] in Hs; try done.
      destruct (_ || _) eqn:Hc; [|done].
      split; [|by apply Hcount].
      intros n s Hn. apply statusInt_inj.
      pose proof (Hall _ eq_refl n s Hn) as Hr. simpl in *. lia.
    + intros [Hdone Hc]. rewrite (Hdone n0 s0 Hn0). cbn [commitStateOf].
      apply Hcount in Hc. by rewrite Hc.
  - split.
    + intros Hs. destruct (gcbStep.status s0) eqn:Hs0;
        cbn [commitStateOf] in Hs; try done.
      * split; [|left; eauto].
        intros n s Hn. pose proof (Hall _ eq_refl n s Hn) as Hr.
        destruct (gcbStep.status s); simpl in Hr; auto; lia.
      * destruct (_ || _) eqn:Hc; [done|].
        assert (¬ (numSteps = 0 ∨ Z.of_nat (size steps) = numSteps))
          by (intros H%Hcount; congruence).
        split; [|right; lia].
        intros n s Hn. pose proof (Hall _ eq_refl n s Hn) as Hr.
        destruct (gcbStep.status s); simpl in Hr; auto; lia.
    + intros [Hrd Hor].
      destruct (Hrd n0 s0 Hn0) as [Hs0|Hs0]; rewrite Hs0;
        cbn [commitStateOf]; [done|].
      destruct Hor as [(n & s & Hn & Hs)|Hcnt].
      * pose proof (Hall _ Hs0 n s Hn) as Hr. rewrite Hs in Hr.
        simpl in Hr. lia.
      * destruct (_ || _) eqn:Hc; [|done].
        assert (numSteps = 0 ∨ Z.of_nat (size steps) = numSteps)
          by (by apply Hcount).
        lia.
Qed.

Lemma success_needs_all_done_witness :
  defined (demoTestSteps ∅ 2)
  ∧ demoTestSteps ∅ 2 ≠ ∅
  ∧ ghStatusUpdate.State <$>
      gcb2gh demoUrl demoBuild (demoTestSteps ∅ 2) 0 1000030000000
    = Some ghCommitStateSuccess.
Proof.
  assert (Hd : defined (demoTestSteps ∅ 2)).
  { unfold demoTestSteps.
    apply applyAll_invariants; [apply keyed_empty | apply defined_empty]. }
  assert (Hne : demoTestSteps ∅ 2 ≠ ∅) by has_entry 0.
  split; [exact Hd|]. split; [exact Hne|].
  destruct (success_needs_all_done demoUrl demoBuild _ 0 1000030000000 Hd Hne)
    as (gh & -> & Hiff & _).
  simpl. f_equal. apply Hiff. split; [|by left].
  intros n s Hn.
  assert (Hm : demoTestSteps ∅ 2 =
    {[ 0 := gcbStep.mk gcbStatusDone 0 "step_0" 0
               1000001000000 1000005000000 ]})
    by (vm_compute; reflexivity).
  rewrite Hm in Hn. apply lookup_singleton_Some in Hn as [_ <-]. reflexivity.
Defined.

(** ** What an applied transition leaves in the map *)

(** X18. After a failure nothing is left running: when a transition with
    status Error is applied, no step of the resulting map has status
    Running. *)
Theorem no_running_after_failure (steps : gmap Z gcbStep.t) (s : gcbStep.t) :
  applied steps s = true →
  gcbStep.status s = gcbStatusError →
  ∀ n step, apply steps s !! n = Some step →
    gcbStep.status step ≠ gcbStatusRunning.
Proof.
  intros [Hu Hnc]%applied_iff He n step Hn.
  destruct (decide (n = gcbStep.num s)) as [->|Hne].
  - rewrite apply_lookup_target in Hn by done. inversion Hn.
    rewrite mergeStart_status, He. done.
  - rewrite apply_lookup_other in Hn by done.
    rewrite decide_True in Hn by done.
    destruct (steps !! n) as [old|]; simpl in Hn; [|done].
    inversion Hn. case_decide; simpl; done.
Qed.

Lemma no_running_after_failure_witness :
  applied demoSteps demoFailure = true
  ∧ gcbStep.status demoFailure = gcbStatusError
  ∧ ∀ n step, apply demoSteps demoFailure !! n = Some step →
      gcbStep.status step ≠ gcbStatusRunning.
Proof.
  assert (H1 : applied demoSteps demoFailure = true)
    by (vm_compute; reflexivity).
  assert (H2 : gcbStep.status demoFailure = gcbStatusError) by reflexivity.
  split; [exact H1|]. split; [exact H2|].
  exact (no_running_after_failure demoSteps demoFailure H1 H2).
Defined.

(** X19. A received value never removes a step and touches little. The
    keys of the map after the arm are the keys before, with the number
    of the step added when the value is applied. Every other step that
    was in the map is still there with the same number, id, exit code and
    start time: only its status and its end time can have changed. *)
Theorem apply_keeps_steps (steps : gmap Z gcbStep.t) (s : gcbStep.t) :
  dom (apply steps s)
  = (if applied steps s then {[ gcbStep.num s ]} ∪ dom steps else dom steps)
  ∧ dom steps ⊆ dom (apply steps s)
  ∧ (size steps ≤ size (apply steps s) ≤ S (size steps))%nat
  ∧ ∀ n step, steps !! n = Some step → n ≠ gcbStep.num s →
      ∃ step', apply steps s !! n = Some step'
        ∧ gcbStep.num step' = gcbStep.num step
        ∧ gcbStep.id step' = gcbStep.id step
        ∧ gcbStep.exit step' = gcbStep.exit step
        ∧ gcbStep.startNano step' = gcbStep.startNano step.
Proof.
  assert (Hdom : dom (apply steps s)
    = (if applied steps s then {[ gcbStep.num s ]} ∪ dom steps
       else dom steps)).
  { destruct (applied steps s) eqn:Ha.
    - apply applied_iff in Ha as [Hu Hnc].
      apply set_eq. intros k. rewrite elem_of_union, elem_of_singleton.
      rewrite !elem_of_dom.
      destruct (decide (k = gcbStep.num s)) as [->|Hne].
      + rewrite apply_lookup_target by done. split; [by left|eauto].
      + rewrite apply_lookup_other by done.
        case_decide; rewrite ?fmap_is_Some;
          (split; [by right | by intros [?|?]]).
    - destruct (apply_unfold steps s) as [->|Hap]; [done|].
      apply applied_iff in Hap. congruence. }
  split; [exact Hdom|].
  assert (Hsub : dom steps ⊆ dom (apply steps s)).
  { rewrite Hdom. destruct (applied steps s);
      [apply union_subseteq_r | done]. }
  split; [exact Hsub|]. split.
  - rewrite <- !size_dom. split.
    + by apply subseteq_size.
    + rewrite Hdom. destruct (applied steps s); [|lia].
      rewrite size_union_alt, size_singleton.
      pose proof (subseteq_size (dom steps ∖ {[gcbStep.num s]}) (dom steps)
                    (subseteq_difference_l _ _ _ (reflexivity _))).
      lia.
  - intros n step Hn Hne.
    destruct (apply_unfold steps s) as [->|[Hu Hnc]]; [by exists step|].
    rewrite apply_lookup_other by done. rewrite Hn. simpl.
    case_decide; [|by exists step].
    case_decide; eexists; (split; [reflexivity|done]).
Qed.

Lemma apply_keeps_steps_witness :
  dom (apply demoSteps demoFailure) = dom demoSteps
  ∧ ∃ step', apply demoSteps demoFailure !! 1 = Some step'
      ∧ gcbStep.id step' = "step_1" ∧ gcbStep.startNano step' = 50.
Proof.
  destruct (apply_keeps_steps demoSteps demoFailure) as (Hdom & _ & _ & Hkeep).
  split.
  - rewrite Hdom. vm_compute. reflexivity.
  - destruct (Hkeep 1 (gcbStep.mk gcbStatusRunning 1 "step_1" 0 50 0))
      as (step' & Hl & _ & Hid & _ & Hst);
      [vm_compute; reflexivity | vm_compute; discriminate |].
    exists step'. split; [exact Hl|]. split; [exact Hid | exact Hst].
Defined.

(** ** The loop of [run] *)

Lemma updateAndDecide_Continue (url : urlPackage) (build : buildContext.t)
    (numSteps : Z) (st st' : loopState.t) (w : world.t) :
  updateAndDecide url build numSteps st w = Continue st' →
  st' = st ∧ loopState.updatesNil st = false.
Proof.
  unfold updateAndDecide. destruct (gcb2gh _ _ _ _ _); [|done].
  case_decide; [done|].
  destruct (loopState.updatesNil st); [done|]. by intros [= <-].
Qed.

Lemma iteration_Continue (url : urlPackage) (build : buildContext.t)
    (numSteps : Z) (st st' : loopState.t) (wk : wakeup) (w : world.t) :
  iteration url build numSteps st wk w = Continue st' →
  loopState.steps st'
  = match wk with
    | RecvUpdate s => apply (loopState.steps st) s
    | _ => loopState.steps st
    end
  ∧ loopState.updatesNil st' = loopState.updatesNil st
  ∧ (loopState.dockerErrsNil st = true → loopState.dockerErrsNil st' = true).
Proof.
  destruct wk as [s|err|]; simpl.
  - destruct (loopState.updatesNil st) eqn:Hnil; [done|].
    unfold apply. destruct (recvStep (loopState.steps st) s).
    + intros [_ Hn]%updateAndDecide_Continue. done.
    + intros [= <-]. done.
    + intros [= <-]. done.
  - destruct (loopState.dockerErrsNil st); [done|].
    destruct err; [done|]. intros [= <-]. done.
  - intros [-> _]%updateAndDecide_Continue. done.
Qed.

Lemma runLoop_Continue (url : urlPackage) (build : buildContext.t)
    (numSteps : Z) (trace : list (wakeup * world.t)) (st st' : loopState.t) :
  runLoop url build numSteps st trace = Continue st' →
  loopState.steps st'
  = applyAll (loopState.steps st) (receivedUpdates trace)
  ∧ loopState.updatesNil st' = loopState.updatesNil st
  ∧ (loopState.dockerErrsNil st = true → loopState.dockerErrsNil st' = true).
Proof.
  revert st. induction trace as [|[wk w] trace IH]; intros st; simpl.
  - intros [= <-]. done.
  - destruct (iteration url build numSteps st wk w) as [st1| | |] eqn:Hit;
      try done.
    intros Hrun. apply IH in Hrun as (Hsteps & Hnil & Herrs).
    apply iteration_Continue in Hit as (Hs1 & Hn1 & He1).
    rewrite Hsteps, Hs1, Hnil, Hn1.
    split; [by destruct wk|]. split; [done|]. auto.
Qed.

Lemma runLoop_app (url : urlPackage) (build : buildContext.t)
    (numSteps : Z) (trace more : list (wakeup * world.t))
    (st st' : loopState.t) :
  runLoop url build numSteps st trace = Continue st' →
  runLoop url build numSteps st (trace ++ more)
  = runLoop url build numSteps st' more.
Proof.
  revert st. induction trace as [|[wk w] trace IH]; intros st; simpl.
  - by intros [= <-].
  - destruct (iteration url build numSteps st wk w); try done. apply IH.
Qed.

Lemma run_Continue (url : urlPackage) (env : gmap string string)
    (file : manifestFile) (trace : list (wakeup * world.t))
    (st : loopState.t) :
  run url env file trace = Continue st →
  ∃ build numSteps,
    (∀ tr, run url env file tr
           = runLoop url build numSteps initialState tr)
    ∧ runLoop url build numSteps initialState trace = Continue st.
Proof.
  unfold run. destruct (runConfig env) as [err|build]; [done|].
  intros H. by eexists _, _.
Qed.

Lemma run_app (url : urlPackage) (env : gmap string string)
    (file : manifestFile) (trace more : list (wakeup * world.t))
    (st : loopState.t) :
  run url env file trace = Continue st →
  ∃ build numSteps,
    run url env file (trace ++ more) = runLoop url build numSteps st more.
Proof.
  intros (build & numSteps & Hrun & Hst)%run_Continue.
  exists build, numSteps. rewrite Hrun. by apply runLoop_app.
Qed.

Lemma run_invariants (url : urlPackage) (env : gmap string string)
    (file : manifestFile) (trace : list (wakeup * world.t))
    (st : loopState.t) :
  run url env file trace = Continue st →
  loopState.steps st = applyAll ∅ (receivedUpdates trace)
  ∧ loopState.updatesNil st = false
  ∧ keyed (loopState.steps st)
  ∧ defined (loopState.steps st).
Proof.
  intros (build & numSteps & _ & Hst)%run_Continue.
  apply runLoop_Continue in Hst as (Hsteps & Hnil & _).
  split; [exact Hsteps|]. split; [exact Hnil|].
  rewrite Hsteps.
  apply applyAll_invariants; [apply keyed_empty | apply defined_empty].
Qed.

(** The state of the update is "error" exactly when the map has an Error
    step. *)
Lemma gcb2gh_error_state (url : urlPackage) (build : buildContext.t)
    (steps : gmap Z gcbStep.t) (numSteps nowNano : Z) :
  defined steps → steps ≠ ∅ →
  ∃ gh, gcb2gh url build steps numSteps nowNano = Some gh
    ∧ (ghStatusUpdate.State gh = ghCommitStateError ↔
       ∃ n s, steps !! n = Some s ∧ gcbStep.status s = gcbStatusError).
Proof.
  intros Hd Hne.
  destruct (gcb2gh_nonempty url build steps numSteps nowNano Hne)
    as (s0 & rest & E & Hgh).
  destruct (sortedSteps_head steps s0 rest E) as [[n0 Hn0] Hmin].
  eexists. split; [exact Hgh|]. cbn [ghStatusUpdate.State].
  assert (Hstate : commitStateOf (gcbStep.status s0) numSteps
                     (Z.of_nat (size steps)) = ghCommitStateError
                   ↔ gcbStep.status s0 = gcbStatusError).
  { destruct (gcbStep.status s0); simpl; try done.
    destruct (_ || _); done. }
  rewrite Hstate. split.
  - intros He. eauto.
  - intros (n & s & Hn & Hs).
    pose proof (Hmin n s Hn) as Hle. rewrite Hs in Hle. simpl in Hle.
    pose proof (statusInt_defined _ (Hd n0 s0 Hn0)) as Hr.
    apply statusInt_inj. simpl. lia.
Qed.

(** X20. The loop and the step map. Whenever [run] is still in its loop
    after a sequence of wake-ups, its step map is the empty map after the
    received values were applied one by one, in the order they were
    received: the timer, the publishing and the end of [dockerUpdates]
    never change it. The loop has not given up its updates channel, and
    the map stores every step under its own number and without undefined
    status. *)
Theorem run_steps (url : urlPackage) (env : gmap string string)
    (file : manifestFile) (trace : list (wakeup * world.t))
    (st : loopState.t) :
  run url env file trace = Continue st →
  loopState.steps st = applyAll ∅ (receivedUpdates trace)
  ∧ loopState.updatesNil st = false
  ∧ keyed (loopState.steps st)
  ∧ defined (loopState.steps st).
Proof.
  unfold run. destruct (runConfig env) as [err|build]; [done|].
  intros (Hsteps & Hnil & _)%runLoop_Continue.
  split; [exact Hsteps|]. split; [exact Hnil|].
  rewrite Hsteps.
  apply applyAll_invariants; [apply keyed_empty | apply defined_empty].
Qed.

Lemma run_steps_witness :
  ∃ st, run demoUrl demoEnv (Decoded demoManifestSteps) demoTrace
        = Continue st
    ∧ loopState.steps st = apply (apply ∅ demoRestart) demoFailure
    ∧ loopState.updatesNil st = false.
Proof.
  destruct (run demoUrl demoEnv (Decoded demoManifestSteps) demoTrace)
    as [st| | |] eqn:E; try (vm_compute in E; discriminate E).
  exists st. split; [reflexivity|].
  destruct (run_steps _ _ _ _ _ E) as (Hs & Hn & _).
  split; [exact Hs | exact Hn].
Defined.

Lemma mainExit_updateGitHub (res : ghResult) :
  Forall (λ e, asCode e = None) (libraryErrors res) →
  mainExit (updateGitHub res)
  = if decide (updateGitHub res = None) then 0 else 1.
Proof.
  intros Hlib. destruct res as [err|err|code status dump [err|]]; simpl in *.
  - apply Forall_cons in Hlib as [-> _]. done.
  - apply Forall_cons in Hlib as [-> _]. done.
  - destruct (negb _); [done|]. simpl.
    apply Forall_cons in Hlib as [-> _]. done.
  - destruct (negb _); done.
Qed.

Lemma updateGitHub_None (res : ghResult) :
  updateGitHub res = None ↔
  ∃ status dump, res = Responded StatusCreated status dump None.
Proof.
  split.
  - destruct res as [err|err|code status dump [err|]]; simpl; try done.
    + by destruct (negb _).
    + destruct (code =? StatusCreated) eqn:E; simpl; [|done].
      apply Z.eqb_eq in E as ->. eauto.
  - intros (status & dump & ->). done.
Qed.

(** X21. The end of the stream. When [run] is in its loop with at least
    one step in its map and receives the zero value of the closed updates
    channel, it publishes once more and returns the result of that
    publish, whatever the state published: the process exits with 0 when
    GitHub answered 201 Created and the response was read, and with 1
    otherwise. *)
Theorem run_returns_at_end_of_stream (url : urlPackage)
    (env : gmap string string) (file : manifestFile)
    (trace : list (wakeup * world.t)) (st : loopState.t)
    (nowNano : Z) (res : ghResult) :
  run url env file trace = Continue st →
  loopState.steps st ≠ ∅ →
  Forall (λ e, asCode e = None) (libraryErrors res) →
  run url env file (trace ++ [(RecvUpdate gcbStep.zero, worldOf nowNano res)])
  = Return (updateGitHub res)
  ∧ (mainExit (updateGitHub res) = 0 ↔
     ∃ status dump, res = Responded StatusCreated status dump None)
  ∧ (mainExit (updateGitHub res) = 0 ∨ mainExit (updateGitHub res) = 1).
Proof.
  intros Hrun Hne Hlib.
  pose proof (run_invariants _ _ _ _ _ Hrun) as (_ & Hnil & _ & Hd).
  destruct (run_app url env file trace
              [(RecvUpdate gcbStep.zero, worldOf nowNano res)] st Hrun)
    as (build & numSteps & ->).
  split.
  - cbn [runLoop iteration]. rewrite Hnil. rewrite recvStep_undef by done.
    unfold updateAndDecide. cbn [loopState.steps loopState.updatesNil].
    destruct (gcb2gh_error_state url build (loopState.steps st) numSteps
                (world.nowNano (worldOf nowNano res)) Hd Hne)
      as (gh & -> & _).
    by case_decide.
  - rewrite mainExit_updateGitHub by done.
    rewrite <- updateGitHub_None.
    case_decide; split; try done; auto.
Qed.

Lemma run_returns_at_end_of_stream_witness :
  run demoUrl demoEnv (Decoded demoManifestSteps)
    ([(RecvUpdate demoRestart, demoWorld)]
     ++ [(RecvUpdate gcbStep.zero, worldOf 20000 demoBadCredentials)])
  = Return (updateGitHub demoBadCredentials)
  ∧ mainExit (updateGitHub demoBadCredentials) = 1.
Proof.
  destruct (run demoUrl demoEnv (Decoded demoManifestSteps)
              [(RecvUpdate demoRestart, demoWorld)])
    as [st| | |] eqn:E; try (vm_compute in E; discriminate E).
  assert (Hne : loopState.steps st ≠ ∅).
  { vm_compute in E. injection E as <-. done. }
  destruct (run_returns_at_end_of_stream _ _ _ _ st 20000 demoBadCredentials
              E Hne) as (H & _ & _).
  { simpl. constructor. }
  split; [exact H | reflexivity].
Defined.

(** X22. The first failure is the last update. When [run] is in its loop
    with an Error step in its map, the next publish, on the timer or at
    the end of the stream, is the last: [run] returns the result of that
    publish. So after a failed build step the process exits with 0 when
    GitHub answered 201 Created and the response was read, and with 1
    otherwise. *)
Theorem run_returns_after_failure (url : urlPackage)
    (env : gmap string string) (file : manifestFile)
    (trace : list (wakeup * world.t)) (st : loopState.t)
    (n : Z) (s : gcbStep.t) (wk : wakeup) (nowNano : Z) (res : ghResult) :
  run url env file trace = Continue st →
  loopState.steps st !! n = Some s →
  gcbStep.status s = gcbStatusError →
  wk = KickFired ∨ wk = RecvUpdate gcbStep.zero →
  Forall (λ e, asCode e = None) (libraryErrors res) →
  run url env file (trace ++ [(wk, worldOf nowNano res)])
  = Return (updateGitHub res)
  ∧ (mainExit (updateGitHub res) = 0 ↔
     ∃ status dump, res = Responded StatusCreated status dump None)
  ∧ (mainExit (updateGitHub res) = 0 ∨ mainExit (updateGitHub res) = 1).
Proof.
  intros Hrun Hn Hs Hwk Hlib.
  pose proof (run_invariants _ _ _ _ _ Hrun) as (_ & Hnil & _ & Hd).
  assert (Hne : loopState.steps st ≠ ∅).
  { intros Hem. rewrite Hem in Hn. by rewrite lookup_empty in Hn. }
  destruct (run_app url env file trace [(wk, worldOf nowNano res)] st Hrun)
    as (build & numSteps & ->).
  split.
  - destruct (gcb2gh_error_state url build (loopState.steps st) numSteps
                nowNano Hd Hne) as (gh & Hgh & Hiff).
    assert (Herr : ghStatusUpdate.State gh = ghCommitStateError)
      by (apply Hiff; eauto).
    destruct Hwk as [-> | ->]; cbn [runLoop iteration].
    + unfold updateAndDecide. cbn [world.nowNano worldOf].
      rewrite Hgh. by rewrite decide_True.
    + rewrite Hnil. rewrite recvStep_undef by done.
      unfold updateAndDecide.
      cbn [loopState.steps world.nowNano worldOf].
      rewrite Hgh. by rewrite decide_True.
  - rewrite mainExit_updateGitHub by done.
    rewrite <- updateGitHub_None.
    case_decide; split; try done; auto.
Qed.

Lemma run_returns_after_failure_witness :
  run demoUrl demoEnv (Decoded demoManifestSteps)
    (demoTrace ++ [(KickFired, worldOf 20000 demoCreated)])
  = Return None
  ∧ mainExit (updateGitHub demoCreated) = 0.
Proof.
  destruct (run demoUrl demoEnv (Decoded demoManifestSteps) demoTrace)
    as [st| | |] eqn:E; try (vm_compute in E; discriminate E).
  assert (Hn : loopState.steps st !! 3
               = Some (gcbStep.mk gcbStatusError 3 "step_3" 1 0 10300)).
  { vm_compute in E. injection E as <-. reflexivity. }
  destruct (run_returns_after_failure _ _ _ _ st 3 _ KickFired 20000
              demoCreated E Hn) as (H & Hexit & _).
  - reflexivity.
  - by left.
  - simpl. constructor.
  - split; [exact H|]. apply Hexit. by eexists _, _.
Defined.

(** X23. Only a failure or the end of the stream ends the loop. When
    [run] is in its loop with a non-empty map that has no Error step, a
    publish on the timer leaves [run] in its loop with the same state,
    whatever GitHub answered and whatever the state published: a failed
    update of GitHub is only logged, and a "success" does not end the
    program before the stream ends. *)
Theorem run_continues_without_failure (url : urlPackage)
    (env : gmap string string) (file : manifestFile)
    (trace : list (wakeup * world.t)) (st : loopState.t) (w : world.t) :
  run url env file trace = Continue st →
  loopState.steps st ≠ ∅ →
  (∀ n s, loopState.steps st !! n = Some s →
     gcbStep.status s ≠ gcbStatusError) →
  run url env file (trace ++ [(KickFired, w)]) = Continue st.
Proof.
  intros Hrun Hne Hnoerr.
  pose proof (run_invariants _ _ _ _ _ Hrun) as (_ & Hnil & _ & Hd).
  destruct (run_app url env file trace [(KickFired, w)] st Hrun)
    as (build & numSteps & ->).
  cbn [runLoop iteration]. unfold updateAndDecide.
  destruct (gcb2gh_error_state url build (loopState.steps st) numSteps
              (world.nowNano w) Hd Hne) as (gh & -> & Hiff).
  rewrite decide_False.
  - by rewrite Hnil.
  - intros (n & s & Hn & Hs)%Hiff. by eapply Hnoerr.
Qed.

Lemma run_continues_without_failure_witness :
  ∃ st,
    run demoUrl demoEnv (Decoded demoManifestSteps)
      [(RecvUpdate demoRestart, demoWorld)] = Continue st
    ∧ run demoUrl demoEnv (Decoded demoManifestSteps)
        ([(RecvUpdate demoRestart, demoWorld)]
         ++ [(KickFired, worldOf 20000 demoBadCredentials)])
      = Continue st.
Proof.
  destruct (run demoUrl demoEnv (Decoded demoManifestSteps)
              [(RecvUpdate demoRestart, demoWorld)])
    as [st| | |] eqn:E; try (vm_compute in E; discriminate E).
  exists st. split; [reflexivity|].
  assert (Hst : loopState.steps st = {[ 1 := demoRestart ]}).
  { vm_compute in E. injection E as <-. reflexivity. }
  apply (run_continues_without_failure _ _ _ _ st _ E).
  - rewrite Hst. apply insert_non_empty.
  - intros n s. rewrite Hst. intros [_ <-]%lookup_singleton_Some. done.
Defined.

(** X24. An error of the event stream ends [run] at once. When the stream
    of an established connection ends with a decoding error,
    [dockerUpdates] has sent the steps of the events before it and returns
    the error wrapped with "decoding event: "; when [run], in its loop
    and still listening for that result, receives it, it returns it
    without publishing anything more, and the process exits with the code
    the decoding error carries, 1 when it carries none. *)
Theorem stream_error_ends_run (url : urlPackage)
    (env : gmap string string) (file : manifestFile)
    (trace : list (wakeup * world.t)) (st : loopState.t)
    (ids : gmap Z string) (status dump : string)
    (body : list dockerEvent.t) (err : error) (w : world.t) :
  run url env file trace = Continue st →
  loopState.dockerErrsNil st = false →
  ∃ e,
    dockerUpdates ids (GetResponse StatusOK status dump body (Some err))
    = Finished (omap (stepOfEvent ids) body) (Some e)
    ∧ run url env file (trace ++ [(RecvDockerErr (Some e), w)])
      = Return (Some e)
    ∧ mainExit (Some e) = exitCode (Some err)
    ∧ (asCode err = None → mainExit (Some e) = 1).
Proof.
  intros Hrun Hlisten.
  exists (wrapError "decoding event: " err). split; [reflexivity|].
  destruct (run_app url env file trace
              [(RecvDockerErr (Some (wrapError "decoding event: " err)), w)]
              st Hrun) as (build & numSteps & ->).
  split; [|split].
  - cbn [runLoop iteration]. by rewrite Hlisten.
  - reflexivity.
  - intros Hc. change (mainExit (Some (wrapError "decoding event: " err)))
      with (exitCode (Some err)). unfold exitCode. by rewrite Hc.
Qed.

Lemma stream_error_ends_run_witness :
  run demoUrl demoEnv (Decoded demoManifestSteps)
    (demoTrace
     ++ [(RecvDockerErr
            (Some (wrapError "decoding event: "
                     (errorString "unexpected EOF"))), demoWorld)])
  = Return (Some (wrapError "decoding event: "
                    (errorString "unexpected EOF"))).
Proof.
  destruct (run demoUrl demoEnv (Decoded demoManifestSteps) demoTrace)
    as [st| | |] eqn:E; try (vm_compute in E; discriminate E).
  assert (Hl : loopState.dockerErrsNil st = false).
  { vm_compute in E. injection E as <-. reflexivity. }
  destruct (stream_error_ends_run demoUrl demoEnv _ demoTrace st ∅
              "200 OK" EmptyString [] (errorString "unexpected EOF")
              demoWorld E Hl) as (e & He & Hr & _).
  injection He as <-. exact Hr.
Defined.

(** ** From the events of a step to its entry *)

Lemma apply_total_target (steps : gmap Z gcbStep.t) (s : gcbStep.t) :
  gcbStep.status s ≠ gcbStatusUndef →
  gcbStep.status (steps !!! gcbStep.num s) ≠ gcbStatusCancelled →
  apply steps s !!! gcbStep.num s = mergeStart steps s.
Proof.
  intros Hu Hc. rewrite lookup_total_alt.
  by rewrite apply_lookup_target.
Qed.

(** X25. The life of a step. For a container named "step_..." whose step
    is not Cancelled in the map: after its "start" and its "die" the map
    holds the step as Done when the exit code read by [atoi] is 0 and as
    Error otherwise, with that exit code, the time of the "die" as end
    time and the time of the "start" as start time (the start time the
    map had for the step when the "start" carries time 0). When a "kill"
    comes between the two, the entry is Cancelled with exit code 0 and
    the time of the "kill" as end time, and the "die" changes nothing. *)
Theorem step_lifecycle (ids : gmap Z string) (steps : gmap Z gcbStep.t)
    (eStart eKill eDie : dockerEvent.t) :
  let name := eventName eStart in
  let k := atoi (TrimPrefix name "step_") in
  let code := atoi (eventExitCode eDie) in
  let started := if decide (dockerEvent.TimeNano eStart = 0)
                 then gcbStep.startNano (steps !!! k)
                 else dockerEvent.TimeNano eStart in
  HasPrefix name "step_" = true →
  eventName eKill = name → eventName eDie = name →
  dockerEvent.Action eStart = "start" →
  dockerEvent.Action eKill = "kill" →
  dockerEvent.Action eDie = "die" →
  gcbStep.status (steps !!! k) ≠ gcbStatusCancelled →
  ∃ sStart sKill sDie,
    stepOfEvent ids eStart = Some sStart
    ∧ stepOfEvent ids eKill = Some sKill
    ∧ stepOfEvent ids eDie = Some sDie
    ∧ apply (apply steps sStart) sDie !! k
      = Some (gcbStep.mk
                (if decide (code = 0) then gcbStatusDone else gcbStatusError)
                k (stepId ids k name) code started
                (dockerEvent.TimeNano eDie))
    ∧ apply (apply steps sStart) sKill !! k
      = Some (gcbStep.mk gcbStatusCancelled k (stepId ids k name) 0 started
                (dockerEvent.TimeNano eKill))
    ∧ apply (apply (apply steps sStart) sKill) sDie
      = apply (apply steps sStart) sKill.
Proof.
  intros name k code started Hpre HnK HnD HaS HaK HaD Hnc.
  set (sStart := gcbStep.mk gcbStatusRunning k (stepId ids k name) 0
                   (dockerEvent.TimeNano eStart) 0).
  set (sKill := gcbStep.mk gcbStatusCancelled k (stepId ids k name) 0 0
                  (dockerEvent.TimeNano eKill)).
  set (sDie := gcbStep.mk
                 (if decide (code = 0) then gcbStatusDone else gcbStatusError)
                 k (stepId ids k name) code 0 (dockerEvent.TimeNano eDie)).
  exists sStart, sKill, sDie.
  assert (HS : stepOfEvent ids eStart = Some sStart).
  { unfold stepOfEvent. fold name. rewrite Hpre, HaS. reflexivity. }
  assert (HK : stepOfEvent ids eKill = Some sKill).
  { unfold stepOfEvent. rewrite HnK, Hpre, HaK. reflexivity. }
  assert (HD : stepOfEvent ids eDie = Some sDie).
  { unfold stepOfEvent. rewrite HnD, Hpre, HaD. reflexivity. }
  assert (H1 : apply steps sStart !!! k
               = gcbStep.mk gcbStatusRunning k (stepId ids k name) 0
                   started 0).
  { change k with (gcbStep.num sStart) at 1.
    rewrite apply_total_target by done.
    unfold mergeStart, started. cbn [gcbStep.startNano sStart gcbStep.num].
    by case_decide. }
  assert (HuD : gcbStep.status sDie ≠ gcbStatusUndef).
  { unfold sDie. simpl. by case_decide. }
  split; [exact HS|]. split; [exact HK|]. split; [exact HD|].
  split; [|split].
  - change k with (gcbStep.num sDie) at 1.
    rewrite apply_lookup_target; [|exact HuD|].
    + unfold mergeStart. cbn [gcbStep.startNano sDie gcbStep.num].
      rewrite decide_True by done. rewrite H1. reflexivity.
    + cbn [gcbStep.num sDie]. by rewrite H1.
  - change k with (gcbStep.num sKill) at 1.
    rewrite apply_lookup_target; [|done|].
    + unfold mergeStart. cbn [gcbStep.startNano sKill gcbStep.num].
      rewrite decide_True by done. rewrite H1. reflexivity.
    + cbn [gcbStep.num sKill]. by rewrite H1.
  - assert (H2 : apply (apply steps sStart) sKill !!! k
                 = gcbStep.mk gcbStatusCancelled k (stepId ids k name) 0
                     started (dockerEvent.TimeNano eKill)).
    { change k with (gcbStep.num sKill) at 1.
      rewrite apply_total_target; [|done|].
      - unfold mergeStart. cbn [gcbStep.startNano sKill gcbStep.num].
        rewrite decide_True by done. rewrite H1. reflexivity.
      - cbn [gcbStep.num sKill]. by rewrite H1. }
    unfold apply at 1. rewrite recvStep_cancelled; [done|exact HuD|].
    cbn [gcbStep.num sDie]. by rewrite H2.
Qed.

Lemma step_lifecycle_witness :
  apply (apply ∅ (gcbStep.mk gcbStatusRunning 3 "failure" 0 80 0))
    (gcbStep.mk gcbStatusError 3 "failure" 1 0 10300) !! 3
  = Some (gcbStep.mk gcbStatusError 3 "failure" 1 80 10300).
Proof.
  assert (Hnc : gcbStep.status ((∅ : gmap Z gcbStep.t) !!! 3)
                ≠ gcbStatusCancelled) by (vm_compute; discriminate).
  destruct (step_lifecycle demoManifest ∅
              (demoEvent 80 "start" "step_3" EmptyString)
              (demoEvent 10200 "kill" "step_3" EmptyString)
              (demoEvent 10300 "die" "step_3" "1")
              eq_refl eq_refl eq_refl eq_refl eq_refl eq_refl Hnc)
    as (sStart & sKill & sDie & HS & _ & HD & H & _).
  vm_compute in HS, HD. injection HS as <-. injection HD as <-.
  exact H.
Defined.
